(** * MulticastLibrary: a shallow embedding of the Robot Framework keywords

    The keywords of [src/MulticastLibrary/MulticastLibrary.py] are embedded
    as Rocq functions.  Python values are modelled as the code uses them:
    a [str] is a sequence of Unicode code points, [bytes] is a sequence of
    octets, an exception is a class together with its message, and a call
    that may raise returns a [result].  Everything the keywords obtain from
    the outside (the clock, the shared stop event, the network, the file
    system, the ICMP probe) is an explicit argument. *)

From Stdlib Require Import String Ascii List Bool Arith ZArith NArith QArith.
From Stdlib Require Import Qround Lia Lqa.
From Stdlib.Strings Require Byte.
From Stdlib Require DecimalNat.
Import ListNotations.

Set Implicit Arguments.
Close Scope Q_scope.

(** ** Python values shared by all keywords *)

Module Py.

(** The part of the exception hierarchy that the keywords name or that
    the calls they make can raise: built-in classes, [struct.error], and
    the classes of [ping3.errors]. *)
Inductive exc_class : Type :=
| BaseException | KeyboardInterrupt
| Exception
| AssertionError
| AttributeError
| NameError | UnboundLocalError
| OSError | BlockingIOError | ConnectionRefusedError | FileNotFoundError
| PermissionError | TimeoutError | gaierror
| OverflowError
| TypeError
| ValueError | UnicodeDecodeError | UnicodeEncodeError
| struct_error
| PingError | HostUnknown.

Definition exc_class_eqb (a b : exc_class) : bool :=
  match a, b with
  | BaseException, BaseException | KeyboardInterrupt, KeyboardInterrupt
  | Exception, Exception | AssertionError, AssertionError
  | AttributeError, AttributeError
  | NameError, NameError | UnboundLocalError, UnboundLocalError
  | OSError, OSError | BlockingIOError, BlockingIOError
  | ConnectionRefusedError, ConnectionRefusedError
  | FileNotFoundError, FileNotFoundError
  | PermissionError, PermissionError | TimeoutError, TimeoutError
  | gaierror, gaierror | OverflowError, OverflowError
  | TypeError, TypeError | ValueError, ValueError
  | UnicodeDecodeError, UnicodeDecodeError
  | UnicodeEncodeError, UnicodeEncodeError
  | struct_error, struct_error
  | PingError, PingError | HostUnknown, HostUnknown => true
  | _, _ => false
  end.

(** The direct base class ([None] for the root). *)
Definition base (c : exc_class) : option exc_class :=
  match c with
  | BaseException => None
  | KeyboardInterrupt | Exception => Some BaseException
  | AssertionError | AttributeError | NameError | OSError | OverflowError
  | TypeError | ValueError | struct_error | PingError => Some Exception
  | UnboundLocalError => Some NameError
  | BlockingIOError | ConnectionRefusedError | FileNotFoundError
  | PermissionError | TimeoutError | gaierror => Some OSError
  | UnicodeDecodeError | UnicodeEncodeError => Some ValueError
  | HostUnknown => Some PingError
  end.

(** [issubclass c d]: walk up from [c]; the hierarchy above is at most
    four levels deep. *)
Fixpoint issubclass_upto (depth : nat) (c d : exc_class) : bool :=
  exc_class_eqb c d ||
  match depth with
  | O => false
  | S depth' =>
      match base c with
      | Some c' => issubclass_upto depth' c' d
      | None => false
      end
  end.

Definition issubclass : exc_class -> exc_class -> bool := issubclass_upto 4.

(** [socket.timeout] is an alias of [TimeoutError] on the interpreters the
    package declares (3.10 to 3.12). *)
Definition socket_timeout : exc_class := TimeoutError.

(** A [str]: Unicode code points.  [bytes]: octets. *)
Definition str : Type := list N.
Definition bytes : Type := list Byte.byte.

Definition str_eqb (a b : str) : bool :=
  if list_eq_dec N.eq_dec a b then true else false.

(** A string literal of the source (ASCII only) as a [str]. *)
Definition lit (s : string) : str := map N_of_ascii (list_ascii_of_string s).

Record exn : Type := mkExn { exn_class : exc_class; exn_msg : str }.

(** Outcome of a call: a value, or a raised exception. *)
Inductive result (A : Type) : Type :=
| Ok (a : A)
| Raise (e : exn).
Arguments Ok {A} a.
Arguments Raise {A} e.

Definition bind {A B : Type} (r : result A) (k : A -> result B) : result B :=
  match r with
  | Ok a => k a
  | Raise e => Raise e
  end.

(** [isinstance(e, cls)] as an [except cls:] clause tests it. *)
Definition caught_by (e : exn) (cls : exc_class) : bool :=
  issubclass (exn_class e) cls.

End Py.

Import Py.

Declare Scope py_scope.
Delimit Scope py_scope with py.
Notation "x <- c ;; k" := (bind c (fun x => k))
  (at level 61, c at next level, right associativity) : py_scope.
Open Scope py_scope.

(** ** The UTF-8 codec behind [str.encode()] and [bytes.decode()]

    Both calls use the default codec, UTF-8 with strict error handling:
    encoding rejects surrogate code points, decoding rejects every octet
    sequence that is not well formed (stray or missing continuation octets,
    overlong forms, surrogates, values above U+10FFFF). *)

Module Utf8.

Definition octet (n : N) : Byte.byte :=
  match Byte.of_N n with
  | Some b => b
  | None => Byte.x00
  end.

Definition is_surrogate (cp : N) : bool :=
  (0xD800 <=? cp)%N && (cp <=? 0xDFFF)%N.

Definition encode_cp (cp : N) : option bytes :=
  if (cp <? 0x80)%N then Some [octet cp]
  else if (cp <? 0x800)%N then
    Some [octet (0xC0 + cp / 64); octet (0x80 + cp mod 64)]
  else if (cp <? 0x10000)%N then
    if is_surrogate cp then None
    else Some [octet (0xE0 + cp / 4096); octet (0x80 + (cp / 64) mod 64);
               octet (0x80 + cp mod 64)]
  else if (cp <? 0x110000)%N then
    Some [octet (0xF0 + cp / 262144); octet (0x80 + (cp / 4096) mod 64);
          octet (0x80 + (cp / 64) mod 64); octet (0x80 + cp mod 64)]
  else None.

Fixpoint encode (s : str) : option bytes :=
  match s with
  | [] => Some []
  | cp :: rest =>
      match encode_cp cp, encode rest with
      | Some b, Some bs => Some (b ++ bs)
      | _, _ => None
      end
  end.

(** A continuation octet is 10xxxxxx. *)
Definition is_cont (n : N) : bool := (0x80 <=? n)%N && (n <=? 0xBF)%N.

Fixpoint decode (data : bytes) : option str :=
  match data with
  | [] => Some []
  | b0 :: r0 =>
      let n0 := Byte.to_N b0 in
      if (n0 <? 0x80)%N then option_map (cons n0) (decode r0)
      else if (n0 <? 0xC0)%N then None
      else if (n0 <? 0xE0)%N then
        match r0 with
        | b1 :: r1 =>
            let n1 := Byte.to_N b1 in
            let cp := ((n0 - 0xC0) * 64 + (n1 - 0x80))%N in
            if is_cont n1 && (0x80 <=? cp)%N
            then option_map (cons cp) (decode r1)
            else None
        | _ => None
        end
      else if (n0 <? 0xF0)%N then
        match r0 with
        | b1 :: b2 :: r2 =>
            let n1 := Byte.to_N b1 in
            let n2 := Byte.to_N b2 in
            let cp := ((n0 - 0xE0) * 4096 + (n1 - 0x80) * 64 + (n2 - 0x80))%N in
            if is_cont n1 && is_cont n2 && (0x800 <=? cp)%N
               && negb (is_surrogate cp)
            then option_map (cons cp) (decode r2)
            else None
        | _ => None
        end
      else if (n0 <? 0xF8)%N then
        match r0 with
        | b1 :: b2 :: b3 :: r3 =>
            let n1 := Byte.to_N b1 in
            let n2 := Byte.to_N b2 in
            let n3 := Byte.to_N b3 in
            let cp := ((n0 - 0xF0) * 262144 + (n1 - 0x80) * 4096
                       + (n2 - 0x80) * 64 + (n3 - 0x80))%N in
            if is_cont n1 && is_cont n2 && is_cont n3
               && (0x10000 <=? cp)%N && (cp <? 0x110000)%N
            then option_map (cons cp) (decode r3)
            else None
        | _ => None
        end
      else None
  end.

(** Number of octets the encoder emits for one code point. *)
Definition width (cp : N) : nat :=
  if (cp <? 0x80)%N then 1
  else if (cp <? 0x800)%N then 2
  else if (cp <? 0x10000)%N then 3
  else 4.

Fixpoint encoded_length (s : str) : nat :=
  match s with
  | [] => 0
  | cp :: rest => width cp + encoded_length rest
  end.

End Utf8.

(** [message.encode()] and [data.decode()] with the exceptions they
    raise (their messages, which name the offending position, are
    abbreviated). *)
Definition str_encode (s : str) : result bytes :=
  match Utf8.encode s with
  | Some b => Ok b
  | None =>
      Raise (mkExn UnicodeEncodeError
               (lit "'utf-8' codec can't encode characters: surrogates not allowed"))
  end.

Definition bytes_decode (data : bytes) : result str :=
  match Utf8.decode data with
  | Some s => Ok s
  | None =>
      Raise (mkExn UnicodeDecodeError
               (lit "'utf-8' codec can't decode bytes: invalid data"))
  end.

Definition ascii_bytes (s : string) : bytes :=
  map (fun c => Utf8.octet (N_of_ascii c)) (list_ascii_of_string s).

(** ** Name lookup and f-strings

    A name that a function body does not assign is looked up in the module
    globals and then in the built-ins; a miss raises [NameError]. *)

Module Names.

Inductive pyobj : Type :=
| PStr (s : str)
| PObject (name : string).

(** Names bound at module level once the module has been imported: the
    imports of lines 2 to 13, the class, and the module attributes. *)
Definition module_globals : list string :=
  [ "ffmpeg"; "ping3"; "vlc"; "os"; "cv2"; "socket"; "numpy"; "struct";
    "threading"; "time"; "Path"; "keyword"; "MulticastLibrary";
    "__name__"; "__doc__"; "__package__"; "__loader__"; "__spec__";
    "__file__"; "__cached__"; "__builtins__" ]%string.

(** The names of the [builtins] module of Python 3.10 to 3.12. *)
Definition builtins : list string :=
  [ "abs"; "aiter"; "all"; "anext"; "any"; "ascii"; "bin"; "bool";
    "breakpoint"; "bytearray"; "bytes"; "callable"; "chr"; "classmethod";
    "compile"; "complex"; "copyright"; "credits"; "delattr"; "dict"; "dir";
    "divmod"; "enumerate"; "eval"; "exec"; "exit"; "filter"; "float";
    "format"; "frozenset"; "getattr"; "globals"; "hasattr"; "hash"; "help";
    "hex"; "id"; "input"; "int"; "isinstance"; "issubclass"; "iter"; "len";
    "license"; "list"; "locals"; "map"; "max"; "memoryview"; "min"; "next";
    "object"; "oct"; "open"; "ord"; "pow"; "print"; "property"; "quit";
    "range"; "repr"; "reversed"; "round"; "set"; "setattr"; "slice";
    "sorted"; "staticmethod"; "str"; "sum"; "super"; "tuple"; "type";
    "vars"; "zip"; "__import__"; "__build_class__"; "__debug__";
    "True"; "False"; "None"; "Ellipsis"; "NotImplemented";
    "BaseException"; "BaseExceptionGroup"; "Exception"; "ExceptionGroup";
    "GeneratorExit"; "KeyboardInterrupt"; "SystemExit";
    "ArithmeticError"; "AssertionError"; "AttributeError"; "BlockingIOError";
    "BrokenPipeError"; "BufferError"; "BytesWarning"; "ChildProcessError";
    "ConnectionAbortedError"; "ConnectionError"; "ConnectionRefusedError";
    "ConnectionResetError"; "DeprecationWarning"; "EOFError";
    "EncodingWarning"; "EnvironmentError"; "FileExistsError";
    "FileNotFoundError"; "FloatingPointError"; "FutureWarning"; "IOError";
    "ImportError"; "ImportWarning"; "IndentationError"; "IndexError";
    "InterruptedError"; "IsADirectoryError"; "KeyError"; "LookupError";
    "MemoryError"; "ModuleNotFoundError"; "NameError"; "NotADirectoryError";
    "NotImplementedError"; "OSError"; "OverflowError";
    "PendingDeprecationWarning"; "PermissionError"; "ProcessLookupError";
    "RecursionError"; "ReferenceError"; "ResourceWarning"; "RuntimeError";
    "RuntimeWarning"; "StopAsyncIteration"; "StopIteration"; "SyntaxError";
    "SyntaxWarning"; "SystemError"; "TabError"; "TimeoutError"; "TypeError";
    "UnboundLocalError"; "UnicodeDecodeError"; "UnicodeEncodeError";
    "UnicodeError"; "UnicodeTranslateError"; "UnicodeWarning";
    "UserWarning"; "ValueError"; "Warning"; "ZeroDivisionError" ]%string.

Fixpoint assoc (name : string) (scope : list (string * pyobj)) : option pyobj :=
  match scope with
  | [] => None
  | (n, v) :: rest => if String.eqb name n then Some v else assoc name rest
  end.

Definition bound_in (name : string) (names : list string) : bool :=
  existsb (String.eqb name) names.

(** Evaluate a name inside a method body whose local variables are
    [locals]. *)
Definition load_name (locals : list (string * pyobj)) (name : string)
  : result pyobj :=
  match assoc name locals with
  | Some v => Ok v
  | None =>
      if bound_in name module_globals || bound_in name builtins
      then Ok (PObject name)
      else Raise (mkExn NameError
                    (lit "name '" ++ lit name ++ lit "' is not defined"))
  end.

(** [format(v, "")] as a replacement field [{v}] applies it.  A [str] is
    inserted as it is; for the other objects only the fact that some text
    results is used, so they are rendered by their name. *)
Definition format (v : pyobj) : str :=
  match v with
  | PStr s => s
  | PObject name => lit "<" ++ lit name ++ lit ">"
  end.

End Names.

(** ** The file system and the video decoder *)

Module Media.

(** A decoded frame; only the number of frames matters to the keyword. *)
Definition frame : Type := nat.

(** What the keywords can observe of the file system: [None] for a path
    that does not exist, otherwise the frames that [cv2.VideoCapture]
    yields for it (none when the path is not a video). *)
Definition filesystem : Type := str -> option (list frame).

Definition os_path_exists (fs : filesystem) (path : str) : bool :=
  match fs path with
  | Some _ => true
  | None => false
  end.

Definition VideoCapture (fs : filesystem) (path : str) : list frame :=
  match fs path with
  | Some frames => frames
  | None => []
  end.

End Media.

(** ** The ICMP probe *)

Module Ping3.

(** What [ping3.ping] returns: the delay in seconds, [None] on a timeout,
    [False] on an error it handles itself (with [ping3.EXCEPTIONS] off,
    the default). *)
Inductive reply : Type :=
| Delay (seconds : Q)
| NoReply
| Failed.

(** Truth value of the reply as the [if] tests it: a float is true unless
    it is zero, [None] and [False] are false. *)
Definition truthy (r : reply) : bool :=
  match r with
  | Delay d => negb (Qeq_bool d 0)
  | NoReply | Failed => false
  end.

(** The probe as the keyword sees it: a host is answered with a reply or
    with an exception. *)
Definition probe : Type := str -> result reply.

End Ping3.

(** ** Sockets, the clock and the network *)

Module Net.

Definition AF_INET : Z := 2.
Definition SOCK_DGRAM : Z := 2.
Definition IPPROTO_UDP : Z := 17.
Definition IPPROTO_IP : Z := 0.
Definition IP_MULTICAST_TTL : Z := 33.

Definition address : Type := (str * Z)%type.

(** System calls issued on behalf of the keywords, oldest first. *)
Inductive syscall : Type :=
| Sys_socket (family type proto : Z)
| Sys_setsockopt (fd : nat) (level optname : Z) (optval : bytes).

Definition is_Sys_socket (c : syscall) : bool :=
  match c with
  | Sys_socket _ _ _ => true
  | Sys_setsockopt _ _ _ _ => false
  end.

Definition is_Sys_setsockopt (c : syscall) : bool :=
  match c with
  | Sys_socket _ _ _ => false
  | Sys_setsockopt _ _ _ _ => true
  end.

(** A socket object: its descriptor, the options set on it (latest
    first) and the timeout of [settimeout] ([None]: blocking). *)
Record socket_obj : Type := mkSocket {
  fileno : nat;
  sockopts : list (Z * Z * bytes);
  timeout : option Q
}.

(** [socket.socket(family, type, proto)]: descriptors 0 to 2 are taken. *)
Definition socket_socket (trace : list syscall) (family type proto : Z)
  : list syscall * result socket_obj :=
  (trace ++ [Sys_socket family type proto],
   Ok (mkSocket (3 + length (filter is_Sys_socket trace)) [] None)).

(** [sock.setsockopt(level, optname, value)] with a [bytes] value. *)
Definition setsockopt (trace : list syscall) (sock : socket_obj)
    (level optname : Z) (value : bytes) : list syscall * result socket_obj :=
  (trace ++ [Sys_setsockopt (fileno sock) level optname value],
   Ok (mkSocket (fileno sock) ((level, optname, value) :: sockopts sock)
         (timeout sock))).

(** [struct.pack('b', v)]: one signed char, two's complement. *)
Definition struct_pack_b (v : Z) : result bytes :=
  if ((-128 <=? v) && (v <=? 127))%Z
  then Ok [Utf8.octet (Z.to_N (v mod 256))]
  else Raise (mkExn struct_error
                (lit "byte format requires -128 <= number <= 127")).

Fixpoint find_opt (level optname : Z) (opts : list (Z * Z * bytes))
  : option bytes :=
  match opts with
  | [] => None
  | (l, o, v) :: rest =>
      if ((l =? level) && (o =? optname))%Z then Some v
      else find_opt level optname rest
  end.

(** Hop limit the kernel uses for multicast datagrams of the socket: a
    one-octet option value, the form the keyword passes, is read as an
    unsigned char; without the option the hop limit is 1. *)
Definition multicast_ttl (sock : socket_obj) : Z :=
  match find_opt IPPROTO_IP IP_MULTICAST_TTL (sockopts sock) with
  | Some [b] => Z.of_N (Byte.to_N b)
  | _ => 1
  end.

(** [sock.settimeout(value)] with a float. *)
Definition settimeout (sock : socket_obj) (value : Q) : result socket_obj :=
  if Qle_bool 0 value
  then Ok (mkSocket (fileno sock) (sockopts sock) (Some value))
  else Raise (mkExn ValueError (lit "Timeout value out of range")).

(** A datagram handed to the network. *)
Record datagram : Type := mkDatagram {
  via : nat;
  payload : bytes;
  dest : address
}.

(** The state the sender works on: the wall clock ([time.time()], in
    seconds, as an exact rational: the rounding of floats is left out),
    the class attribute [stop_sending] shared by all senders, and the
    datagrams sent so far, oldest first. *)
Record world : Type := mkWorld {
  clock : Q;
  stop_sending : bool;
  wire : list datagram
}.

(** What the surroundings do while the send loop runs.  Before the flag
    test of iteration [k] another thread may call the Stop Sending keyword
    ([stop_request k]).  [lag k] is the time that passes before the clock
    reading of iteration [k] beyond the sleeps that were asked for: the
    overrun of the previous sleep, the time the previous send took,
    scheduling.  [resolves] tells which host names the resolver finds an
    address for, and [idna] for which host names that are not plain ASCII
    the IDNA encoding succeeds.  [route_error t] is the error, if any,
    with which the system finds no way to the destination for a datagram
    handed to it at time [t] (network unreachable, broadcast not
    permitted), and [send_error t] the error with which it then fails to
    transmit it (dropped by a packet filter, out of memory). *)
Record surroundings : Type := mkSurroundings {
  lag : nat -> Q;
  stop_request : nat -> bool;
  resolves : str -> bool;
  idna : str -> bool;
  route_error : Q -> option exn;
  send_error : Q -> option exn
}.

Definition time_passes (dt : Q) (w : world) : world :=
  mkWorld (clock w + dt) (stop_sending w) (wire w).

Definition event_set (w : world) : world :=
  mkWorld (clock w) true (wire w).

Definition has_null (host : str) : bool := existsb (N.eqb 0) host.

Definition is_ascii (host : str) : bool :=
  forallb (fun c => (c <? 128)%N) host.

(** Whether a host name can be handed to the resolver: it holds no null
    character and is plain ASCII or has an IDNA encoding. *)
Definition host_converts (env : surroundings) (host : str) : bool :=
  negb (has_null host) && (is_ascii host || idna env host).

(** Whether a port number fits a C [int]. *)
Definition fits_int (port : Z) : bool :=
  ((-2147483648 <=? port) && (port <=? 2147483647))%Z.

(** Largest payload of a UDP datagram over IPv4: 65535 octets less the
    IP and UDP headers. *)
Definition largest_payload : Z := 65507.

(** [sock.sendto(data, (host, port))] on an open, blocking UDP socket of
    a Linux host, in the order in which the call checks its arguments.
    The interpreter converts the host name (IDNA, unless it is plain
    ASCII; no null character) and reads the port as a C [int], resolves
    the host, and checks the port against 0..65535.  The system then
    turns down a datagram of more than 65535 octets and the port 0, looks
    for a route, turns down a payload of more than [largest_payload]
    octets, and transmits. *)
Definition sendto (env : surroundings) (sock : socket_obj) (data : bytes)
    (to : address) (w : world) : world * result unit :=
  let (host, port) := to in
  if negb (is_ascii host || idna env host) then
    (w, Raise (mkExn TypeError (lit "encoding of hostname failed")))
  else if has_null host then
    (w, Raise (mkExn TypeError
                 (lit "host name must not contain null character")))
  else if negb (fits_int port) then
    (w, Raise (mkExn OverflowError (lit "sendto(): port must be 0-65535.")))
  else if negb (resolves env host) then
    (w, Raise (mkExn gaierror (lit "[Errno -2] Name or service not known")))
  else if negb ((0 <=? port) && (port <=? 65535))%Z then
    (w, Raise (mkExn OverflowError (lit "sendto(): port must be 0-65535.")))
  else if (65535 <? Z.of_nat (length data))%Z then
    (w, Raise (mkExn OSError (lit "[Errno 90] Message too long")))
  else if (port =? 0)%Z then
    (w, Raise (mkExn OSError (lit "[Errno 22] Invalid argument")))
  else
    match route_error env (clock w) with
    | Some e => (w, Raise e)
    | None =>
        if (largest_payload <? Z.of_nat (length data))%Z then
          (w, Raise (mkExn OSError (lit "[Errno 90] Message too long")))
        else
          match send_error env (clock w) with
          | Some e => (w, Raise e)
          | None =>
              (mkWorld (clock w) (stop_sending w)
                 (wire w ++ [mkDatagram (fileno sock) data (host, port)]),
               Ok tt)
          end
    end.

(** What makes every [sendto] of a run succeed: a destination and a
    payload that pass all checks, and a system that finds a route and
    transmits at all times. *)
Definition accepted (env : surroundings) (data : bytes) (to : address)
  : Prop :=
  host_converts env (fst to) = true
  /\ resolves env (fst to) = true
  /\ (1 <= snd to <= 65535)%Z
  /\ (Z.of_nat (length data) <= largest_payload)%Z
  /\ forall t, route_error env t = None /\ send_error env t = None.

(** The length of a sleep in nanoseconds, rounded away from zero, as the
    interpreter converts it. *)
Definition nanoseconds (secs : Q) : Z :=
  let ns := (secs * 1000000000)%Q in
  if Qle_bool 0 ns then Qceiling ns else Qfloor ns.

(** The longest sleep whose nanoseconds fit 64 bits (about 292 years). *)
Definition longest_sleep : Q := 9223372036854775807 # 1000000000.

(** [time.sleep(secs)]: the length is converted first, which fails when
    its nanoseconds do not fit 64 bits, and then has to be
    non-negative. *)
Definition time_sleep (secs : Q) (w : world) : world * result unit :=
  let ns := nanoseconds secs in
  if negb ((-9223372036854775808 <=? ns) && (ns <=? 9223372036854775807))%Z
  then
    (w, Raise (mkExn OverflowError
                 (lit "timestamp too large to convert to C _PyTime_t")))
  else if Qle_bool 0 secs then (time_passes secs w, Ok tt)
  else (w, Raise (mkExn ValueError (lit "sleep length must be non-negative"))).

(** Incoming traffic of a receive socket during one receive window: the
    datagrams delivered to [recvfrom], in order of arrival with their
    source, and the exception that the call raises once they have been
    handed over. *)
Record traffic : Type := mkTraffic {
  arrivals : list (bytes * address);
  failure : exn
}.

(** [sock.recvfrom(bufsize)] on a datagram socket hands over at most
    [bufsize] octets of the next datagram; the rest of it is discarded. *)
Definition recvfrom_data (bufsize : nat) (incoming : bytes) : bytes :=
  firstn bufsize incoming.

Definition Qgt_bool (a b : Q) : bool := negb (Qle_bool a b).

End Net.

(** ** The keywords of class [MulticastLibrary] *)

Module MulticastLibrary.

Import Names Media Ping3 Net.

(** *** Get Frame Counts (lines 19 to 39) *)

(** The [while True] loop over [video_obj.read()]: one more frame is
    counted for every successful read, the first failed read ends it. *)
Fixpoint read_frames (video_obj : list frame) (frame_count : nat) : nat :=
  match video_obj with
  | [] => frame_count
  | _ :: rest => read_frames rest (frame_count + 1)
  end.

Definition Get_Frame_count (fs : filesystem) (video_file : str) : result nat :=
  if os_path_exists fs video_file then
    let frame_count := 0 in
    let video_obj := VideoCapture fs video_file in
    Ok (read_frames video_obj frame_count)
  else
    file <- load_name [("self"%string, PObject "self");
                       ("video_file"%string, PStr video_file)] "file" ;;
    Raise (mkExn FileNotFoundError (format file ++ lit " file does not exist!")).

(** *** Ping (lines 102 to 121) *)

(** The keyword returns a [bool] on most paths and a [str] on one. *)
Inductive pyval : Type :=
| VBool (b : bool)
| VStr (s : str).

(** [s.count(".")] for the one-character pattern. *)
Definition count_char (c : N) (s : str) : nat :=
  length (filter (N.eqb c) s).

Definition full_stop : N := 46.

Definition ping (ping3_ping : probe) (remote_host : str) : result pyval :=
  if count_char full_stop remote_host =? 3 then
    match ping3_ping remote_host with
    | Ok r => if truthy r then Ok (VBool true) else Ok (VBool false)
    | Raise e =>
        if caught_by e TypeError || caught_by e OSError then Ok (VBool false)
        else if caught_by e NameError then
          Ok (VStr (lit "module " ++ exn_msg e))
        else Raise e
    end
  else Ok (VBool false).

(** *** Create Send Socket (lines 154 to 167) *)

Definition Create_Send_Socket (trace : list syscall) (ttl : Z)
  : list syscall * result socket_obj :=
  match socket_socket trace AF_INET SOCK_DGRAM IPPROTO_UDP with
  | (trace, Raise e) => (trace, Raise e)
  | (trace, Ok send_sock) =>
      match struct_pack_b ttl with
      | Raise e => (trace, Raise e)
      | Ok ttl_bytes =>
          setsockopt trace send_sock IPPROTO_IP IP_MULTICAST_TTL ttl_bytes
      end
  end.

(** *** Send Multicast Message (lines 188 to 213) and Stop Sending *)

Definition Stop_Sending_Messages (w : world) : world := event_set w.

Section Send_Multicast_Message.

Variable env : surroundings.
Variables (send_sock : socket_obj) (multicast_group : str) (port : Z).
Variables (message : str) (interval duration : Q).

(** The [while] loop of [send_loop] from its iteration [k] on.  [fuel]
    bounds the number of iterations that are unfolded; [None] means that
    the bound was reached, not that the loop ended.  The result carries
    the exception, if any, that ended the thread. *)
Fixpoint send_loop_from (fuel k : nat) (start_time : Q) (w : world)
  : option (world * result unit) :=
  match fuel with
  | O => None
  | S fuel' =>
      let w := if stop_request env k then event_set w else w in
      if stop_sending w then Some (w, Ok tt)
      else
        let w := time_passes (lag env k) w in
        if Qgt_bool (clock w - start_time) duration then Some (w, Ok tt)
        else
          match str_encode message with
          | Raise e => Some (w, Raise e)
          | Ok encoded_message =>
              match sendto env send_sock encoded_message
                      (multicast_group, port) w with
              | (w, Raise e) => Some (w, Raise e)
              | (w, Ok _) =>
                  match time_sleep interval w with
                  | (w, Raise e) => Some (w, Raise e)
                  | (w, Ok _) => send_loop_from fuel' (S k) start_time w
                  end
              end
          end
  end.

Definition send_loop (fuel : nat) (w : world) : option (world * result unit) :=
  let start_time := clock w in
  send_loop_from fuel 0 start_time w.

(** The thread is started and joined; an exception that ends the thread
    is reported by the threading machinery and does not reach the caller,
    so the keyword returns normally either way. *)
Definition Send_Multicast_Message (fuel : nat) (w : world) : option world :=
  match send_loop fuel w with
  | Some (w', _) => Some w'
  | None => None
  end.

End Send_Multicast_Message.

(** *** Receive Multicast Message (lines 216 to 236) *)

(** The [while True] loop: it can only be left by an exception, raised by
    [recvfrom] or by [decode]; the list built so far stays with the
    caller. *)
Fixpoint receive_loop (incoming : list (bytes * address)) (failure : exn)
    (received_messages : list str) : list str * exn :=
  match incoming with
  | [] => (received_messages, failure)
  | (sent, _) :: rest =>
      let data := recvfrom_data 1024 sent in
      match bytes_decode data with
      | Ok text => receive_loop rest failure (received_messages ++ [text])
      | Raise e => (received_messages, e)
      end
  end.

Definition Receive_Multicast_Message (t : traffic) (recv_sock : socket_obj)
    (timeout : Q) : socket_obj * result (list str) :=
  match settimeout recv_sock timeout with
  | Raise e => (recv_sock, Raise e)
  | Ok recv_sock =>
      let (received_messages, e) := receive_loop (arrivals t) (failure t) [] in
      if caught_by e socket_timeout
      then (recv_sock, Ok received_messages)
      else (recv_sock, Raise e)
  end.

(** *** Should Messages (Not) Be Equal (lines 239 to 264) *)

(** [x in xs] for a list of strings. *)
Definition contains (x : str) (xs : list str) : bool :=
  existsb (str_eqb x) xs.

Definition Should_Messages_Be_Equal (sent_msg : str) (recv_msg : list str)
  : result unit :=
  if negb (contains sent_msg recv_msg) then
    Raise (mkExn AssertionError
             (lit "'" ++ sent_msg ++ lit "' is not found in the received message"))
  else Ok tt.

Definition Should_Messages_Not_Be_Equal (sent_msg : str) (recv_msg : list str)
  : result unit :=
  if contains sent_msg recv_msg then
    Raise (mkExn AssertionError
             (lit "'" ++ sent_msg ++ lit "' is found in the received message"))
  else Ok tt.

End MulticastLibrary.

Import Names Media Ping3 Net MulticastLibrary.

(** ** Scenarios used in the examples below *)

(** A directory tree holding one three-frame clip. *)
Definition one_clip : filesystem :=
  fun path => if str_eqb path (lit "clip.mp4") then Some [0; 1; 2] else None.

Definition is_bool (v : result pyval) : bool :=
  match v with
  | Ok (VBool _) => true
  | _ => false
  end.

(** Probes: one that answers every host after 12 milliseconds, one that
    fails with a [NameError], one that raises [ping3.errors.HostUnknown]
    (as the probe does for an unknown host once [ping3.EXCEPTIONS] is
    switched on), and one that fails with an [OSError]. *)
Definition probe_answers : probe := fun _ => Ok (Delay (12 # 1000)).

Definition probe_name_error : probe :=
  fun _ => Raise (mkExn NameError (lit "name 'ping3' is not defined")).

Definition probe_host_unknown : probe :=
  fun _ => Raise (mkExn HostUnknown (lit "Cannot resolve: Unknown host.")).

Definition probe_unreachable : probe :=
  fun _ => Raise (mkExn OSError (lit "[Errno 101] Network is unreachable")).

(** A receive socket, the exception of an expired timeout, the one of a
    closed socket, and three receive windows: two equal datagrams and a
    third one followed by silence; a datagram followed by the socket
    being closed; and one datagram of 1025 octets (1023 letters and a
    two-octet character) followed by silence. *)
Definition recv_socket : socket_obj := mkSocket 4 [] None.

Definition timed_out : exn := mkExn socket_timeout (lit "timed out").

Definition bad_descriptor : exn :=
  mkExn OSError (lit "[Errno 9] Bad file descriptor").

Definition peer : address := (lit "192.168.1.20", 40000%Z).

Definition ping_ping_pong : traffic :=
  mkTraffic [(ascii_bytes "ping", peer); (ascii_bytes "ping", peer);
             (ascii_bytes "pong", peer)] timed_out.

Definition ping_then_closed : traffic :=
  mkTraffic [(ascii_bytes "ping", peer)] bad_descriptor.

Definition long_message : str := repeat 97%N 1023 ++ [0xE9%N].

Definition long_datagram : bytes :=
  match Utf8.encode long_message with
  | Some b => b
  | None => []
  end.

Definition one_long_datagram : traffic :=
  mkTraffic [(long_datagram, peer)] timed_out.


(** The entry that a datagram contributes: the text its first 1024
    octets decode to. *)
Definition delivered (a : bytes * address) (text : str) : Prop :=
  Utf8.decode (recvfrom_data 1024 (fst a)) = Some text.


(** A datagram of 1025 letters, followed by silence. *)
Definition long_ascii_datagram : bytes := repeat (Utf8.octet 97) 1025.

Definition one_long_ascii_datagram : traffic :=
  mkTraffic [(long_ascii_datagram, peer)] timed_out.

(** What a datagram contributes when its first 1024 octets decode: that
    text, which is not the message the datagram was encoded from when
    the datagram is longer than 1024 octets. *)
Definition delivered_cut (a : bytes * address) (text : str) : Prop :=
  Utf8.decode (firstn 1024 (fst a)) = Some text
  /\ (1024 < length (fst a) ->
      length (firstn 1024 (fst a)) = 1024
      /\ forall message, Utf8.encode message = Some (fst a) -> text <> message).


(** ** Vocabulary for the timing of the send loop *)

(** Time that [k] sleeps of [interval] seconds take when none overruns. *)
Definition sched (interval : Q) (k : nat) : Q :=
  inject_Z (Z.of_nat k) * interval.

(** Delay accumulated by the surroundings over the iterations before
    iteration [k]. *)
Fixpoint lag_sum (env : surroundings) (k : nat) : Q :=
  match k with
  | O => 0
  | S k' => lag_sum env k' + lag env k'
  end.

(** Time since the start of the loop at which iteration [j] reads the
    clock when no iteration before it was cut short: [j] sleeps and the
    delays up to and including the one of iteration [j]. *)
Definition reading (env : surroundings) (interval : Q) (j : nat) : Q :=
  sched interval j + lag_sum env (S j).

(** A send socket with the default TTL, the default group, a world in
    which nothing has been sent and the stop event is clear, and
    surroundings in which every host name resolves and the system
    transmits every datagram: an ideal one that adds no delay, which no
    machine matches, one in which every iteration takes 0.3 seconds more
    than its sleep, one in which it takes a millisecond more, and one in
    which the Stop Sending keyword is called during the second sleep. *)
Definition send_socket : socket_obj :=
  mkSocket 3 [(IPPROTO_IP, IP_MULTICAST_TTL, [Utf8.octet 5])] None.

Definition default_group : str := lit "239.239.239.239".

Definition quiet_world : world := mkWorld 1000 false [].

Definition punctual : surroundings :=
  mkSurroundings (fun _ => 0%Q) (fun _ => false) (fun _ => true)
    (fun _ => true) (fun _ => None) (fun _ => None).

Definition sluggish : surroundings :=
  mkSurroundings (fun _ => (3 # 10)%Q) (fun _ => false) (fun _ => true)
    (fun _ => true) (fun _ => None) (fun _ => None).

Definition brisk : surroundings :=
  mkSurroundings (fun _ => (1 # 1000)%Q) (fun _ => false) (fun _ => true)
    (fun _ => true) (fun _ => None) (fun _ => None).

Definition interrupted : surroundings :=
  mkSurroundings (fun _ => 0%Q) (fun k => Nat.eqb k 2) (fun _ => true)
    (fun _ => true) (fun _ => None) (fun _ => None).

Definition hello : datagram :=
  mkDatagram 3 (ascii_bytes "hello") (default_group, 5999%Z).


(** Two of the datagrams of a [hello] sender reach the receiver. *)
Definition hello_twice : traffic :=
  mkTraffic [(ascii_bytes "hello", peer); (ascii_bytes "hello", peer)]
    timed_out.


(** ** The keywords that write, delete and compare frame files *)

Module FrameFiles.

(** [str(n)] for a non-negative [int]: its decimal digits. *)
Fixpoint uint_digits (d : Decimal.uint) : str :=
  match d with
  | Decimal.Nil => []
  | Decimal.D0 d => 48%N :: uint_digits d
  | Decimal.D1 d => 49%N :: uint_digits d
  | Decimal.D2 d => 50%N :: uint_digits d
  | Decimal.D3 d => 51%N :: uint_digits d
  | Decimal.D4 d => 52%N :: uint_digits d
  | Decimal.D5 d => 53%N :: uint_digits d
  | Decimal.D6 d => 54%N :: uint_digits d
  | Decimal.D7 d => 55%N :: uint_digits d
  | Decimal.D8 d => 56%N :: uint_digits d
  | Decimal.D9 d => 57%N :: uint_digits d
  end.

Definition format_d (n : nat) : str := uint_digits (Nat.to_uint n).

(** The replacement field [{n:04d}]: the digits, padded with zeros on
    the left to a width of at least four. *)
Definition format_04d (n : nat) : str :=
  let digits := format_d n in
  repeat 48%N (4 - length digits) ++ digits.

Definition slash : N := 47.

Definition starts_with_slash (p : str) : bool :=
  match p with
  | c :: _ => N.eqb c slash
  | [] => false
  end.

Definition ends_with_slash (p : str) : bool :=
  match rev p with
  | c :: _ => N.eqb c slash
  | [] => false
  end.

(** [os.path.join(a, b)] on a POSIX system. *)
Definition os_path_join (a b : str) : str :=
  if starts_with_slash b then b
  else if match a with [] => true | _ => ends_with_slash a end then a ++ b
  else a ++ [slash] ++ b.

(** What [cv2.imwrite] does with one frame: the file is there afterwards,
    it is not (the call returns [False]), or the call raises. *)
Inductive write_outcome : Type :=
| Written
| NotWritten
| WriteRaises (e : exn).

(** What the extraction keyword obtains from outside: the files present
    before the call together with what the video decoder yields for them,
    the working directory, how [Path] renders a directory name, and the
    outcome of creating a directory and of writing an image. *)
Record studio : Type := mkStudio {
  videos : Media.filesystem;
  cwd : str;
  path_str : str -> str;
  makedirs : str -> option exn;
  imwrite : str -> Media.frame -> write_outcome
}.

(** What a call has done to the disk: the directories it asked for and
    the files it wrote, oldest first. *)
Record effects : Type := mkEffects {
  made : list str;
  written : list str
}.

(** [os.path.exists(path)] during a call. *)
Definition exists_now (st : studio) (done : effects) (path : str) : bool :=
  Media.os_path_exists (videos st) path
  || existsb (str_eqb path) (written done).

(** *** Extracting Video Frames (lines 42 to 76) *)

Section Extracting_Video_Frames.

Variable st : studio.
Variables (video_file file_format : str).

Definition frame_name (frame_count : nat) : str :=
  lit "frame_" ++ format_04d frame_count ++ lit "." ++ file_format.

Definition missing_video : exn :=
  mkExn FileNotFoundError (video_file ++ lit " file does not exist!").

(** The [while True] loop over the frames that [video_obj.read()]
    yields. *)
Fixpoint extract_loop (directory_path : str) (video_obj : list Media.frame)
    (frame_count : nat) (done : effects) (video_frames : list str)
  : effects * result (list str) :=
  match video_obj with
  | [] => (done, Ok video_frames)
  | frame :: rest =>
      let filename := os_path_join directory_path (frame_name frame_count) in
      match imwrite st filename frame with
      | WriteRaises e => (done, Raise e)
      | outcome =>
          let done :=
            match outcome with
            | Written => mkEffects (made done) (written done ++ [filename])
            | _ => done
            end in
          let frame_count := frame_count + 1 in
          if exists_now st done filename
          then extract_loop directory_path rest frame_count done
                 (video_frames ++ [filename])
          else (done, Raise missing_video)
      end
  end.

Definition Extracting_Video_Frames (output_dir : option str)
  : effects * result (list str) :=
  if negb (Media.os_path_exists (videos st) video_file) then
    (mkEffects [] [], Raise missing_video)
  else
    match output_dir with
    | None =>
        extract_loop (cwd st) (Media.VideoCapture (videos st) video_file) 0
          (mkEffects [] []) []
    | Some dir =>
        match makedirs st dir with
        | Some e => (mkEffects [] [], Raise e)
        | None =>
            extract_loop (path_str st dir)
              (Media.VideoCapture (videos st) video_file) 0
              (mkEffects [dir] []) []
        end
    end.

End Extracting_Video_Frames.

(** *** Removing Video Frame Files (lines 79 to 99) *)

(** What the clean-up keyword obtains from outside: the working
    directory, how [Path] renders a directory name, which paths exist,
    which paths [directory_path.glob(pattern)] yields, and for every
    path whether [unlink] succeeds ([None]) or what it raises. *)
Record cupboard : Type := mkCupboard {
  here : str;
  rendered : str -> str;
  path_exists : str -> bool;
  glob : str -> str -> list str;
  unlink : str -> option exn
}.

(** The files deleted and the lines printed, oldest first. *)
Record cleaning : Type := mkCleaning {
  deleted : list str;
  printed : list str
}.

Definition deletion_report (file : str) (e : exn) : str :=
  lit "Error deleting " ++ file ++ lit ": " ++ exn_msg e.

(** The [for] loop with its [try] ... [except Exception]. *)
Fixpoint remove_loop (c : cupboard) (files : list str) (done : cleaning)
  : cleaning * result unit :=
  match files with
  | [] => (done, Ok tt)
  | file :: rest =>
      match unlink c file with
      | None =>
          remove_loop c rest (mkCleaning (deleted done ++ [file]) (printed done))
      | Some e =>
          if caught_by e Exception
          then remove_loop c rest
                 (mkCleaning (deleted done)
                    (printed done ++ [deletion_report file e]))
          else (done, Raise e)
      end
  end.

Definition Removing_Video_Frame_Files (c : cupboard) (file_format : str)
    (directory : option str) : cleaning * result unit :=
  let directory_path :=
    match directory with
    | None => here c
    | Some d => rendered c d
    end in
  if negb (path_exists c directory_path) then
    (mkCleaning [] [],
     Raise (mkExn FileNotFoundError
              (lit "The directory " ++ directory_path
               ++ lit " does not exist!")))
  else
    remove_loop c (glob c directory_path (lit "*." ++ file_format))
      (mkCleaning [] []).

(** *** Should Be Equal As Frames (lines 124 to 151) *)

(** An image as [cv2.imread] returns it: rows, columns, channels, and
    the pixels row by row, each with its blue, green and red value
    (0 to 255). *)
Record image : Type := mkImage {
  shape : nat * nat * nat;
  pixels : list (N * N * N)
}.

(** What is stored under a path: nothing that is a regular file
    ([None]), a file that [cv2.imread] cannot decode ([Some None]), or
    an image. *)
Definition gallery : Type := str -> option (option image).

Definition os_path_isfile (g : gallery) (path : str) : bool :=
  match g path with
  | Some _ => true
  | None => false
  end.

Definition imread (g : gallery) (path : str) : option image :=
  match g path with
  | Some (Some img) => Some img
  | _ => None
  end.

Definition shape_eqb (a b : nat * nat * nat) : bool :=
  let '(r1, c1, k1) := a in
  let '(r2, c2, k2) := b in
  Nat.eqb r1 r2 && Nat.eqb c1 c2 && Nat.eqb k1 k2.

Definition absdiff1 (x y : N) : N := if (x <=? y)%N then y - x else x - y.

(** [cv2.absdiff] on two arrays of the same shape. *)
Definition absdiff (a b : list (N * N * N)) : list (N * N * N) :=
  map (fun pq =>
         let '((b1, g1, r1), (b2, g2, r2)) := pq in
         (absdiff1 b1 b2, absdiff1 g1 g2, absdiff1 r1 r2))
    (combine a b).

(** [cv2.threshold(src, thresh, maxval, cv2.THRESH_BINARY)]. *)
Definition threshold (src : list N) (thresh maxval : N) : list N :=
  map (fun v => if (thresh <? v)%N then maxval else 0%N) src.

(** [numpy.sum]. *)
Definition numpy_sum (a : list N) : N := fold_right N.add 0%N a.

Definition no_shape : exn :=
  mkExn AttributeError (lit "'NoneType' object has no attribute 'shape'").

Section Should_Be_Equal_As_Frames.

(** The grey level that [cv2.cvtColor(..., cv2.COLOR_BGR2GRAY)] gives to
    a pixel; its rounding is the library's business. *)
Variable bgr2gray : N * N * N -> N.

Variable g : gallery.

Definition Should_Be_Equal_As_Frames (source_img destination_img : str)
  : result bool :=
  if negb (os_path_isfile g source_img) then
    Raise (mkExn FileNotFoundError (source_img ++ lit " file does not exist!"))
  else if negb (os_path_isfile g destination_img) then
    Raise (mkExn FileNotFoundError
             (destination_img ++ lit " file does not exist!"))
  else
    let src_img := imread g source_img in
    let dst_img := imread g destination_img in
    match src_img, dst_img with
    | None, _ => Raise no_shape
    | Some _, None => Raise no_shape
    | Some src, Some dst =>
        if shape_eqb (shape src) (shape dst) then
          let diff := absdiff (pixels src) (pixels dst) in
          let gray_diff := map bgr2gray diff in
          let threshold_diff := threshold gray_diff 50 255 in
          if (0 <? numpy_sum threshold_diff)%N then Ok false else Ok true
        else Ok false
    end.

End Should_Be_Equal_As_Frames.

End FrameFiles.

Import FrameFiles.

(** A studio in which every frame can be written, and one whose disk is
    full once the first frame has been written. *)
Definition tidy_studio : studio :=
  mkStudio one_clip (lit "/work") (fun p => p) (fun _ => None)
    (fun _ _ => Written).

Definition full_disk_studio : studio :=
  mkStudio one_clip (lit "/work") (fun p => p) (fun _ => None)
    (fun filename _ =>
       if str_eqb filename (lit "out/frame_0000.jpg") then Written
       else NotWritten).

(** A directory [out] with three frames, the second of which cannot be
    deleted. *)
Definition locked : exn :=
  mkExn PermissionError (lit "[Errno 13] Permission denied").

Definition three_frames : cupboard :=
  mkCupboard (lit "/work") (fun p => p)
    (fun p => str_eqb p (lit "out"))
    (fun _ _ => [lit "out/frame_0000.jpg"; lit "out/frame_0001.jpg";
                 lit "out/frame_0002.jpg"])
    (fun file => if str_eqb file (lit "out/frame_0001.jpg")
                 then Some locked else None).

(** Grey level of a pixel by the fixed-point weights 0.114, 0.587 and
    0.299 for blue, green and red. *)
Definition weighted_gray (p : N * N * N) : N :=
  let '(b, g, r) := p in
  ((b * 1868 + g * 9617 + r * 4899 + 8192) / 16384)%N.

(** Two one-by-two pictures that differ slightly in one pixel, and a
    file that is no picture. *)
Definition two_pictures : gallery :=
  fun path =>
    if str_eqb path (lit "a.png") then
      Some (Some (mkImage (1, 2, 3) [(10, 20, 30); (200, 100, 50)]%N))
    else if str_eqb path (lit "b.png") then
      Some (Some (mkImage (1, 2, 3) [(10, 20, 30); (210, 120, 40)]%N))
    else if str_eqb path (lit "notes.txt") then Some None
    else None.


(** Vocabulary for the clean-up keyword: whether a file can be deleted,
    and the lines printed for the files that cannot. *)
Definition can_unlink (c : cupboard) (file : str) : bool :=
  match unlink c file with
  | None => true
  | Some _ => false
  end.

Definition reports (c : cupboard) (files : list str) : list str :=
  flat_map (fun file =>
              match unlink c file with
              | None => []
              | Some e => [deletion_report file e]
              end) files.


(** * Properties *)

(** ** Sanity checks of the models *)

Example decode_ping : Utf8.decode (ascii_bytes "ping") = Some (lit "ping").
Proof. reflexivity. Qed.

Example decode_e_acute :
  Utf8.decode [Utf8.octet 0xC3; Utf8.octet 0xA9] = Some [0xE9%N].
Proof. reflexivity. Qed.

Example decode_cut_short : Utf8.decode [Utf8.octet 0xC3] = None.
Proof. reflexivity. Qed.

Example decode_overlong :
  Utf8.decode [Utf8.octet 0xC0; Utf8.octet 0x80] = None.
Proof. reflexivity. Qed.

Example encode_euro :
  Utf8.encode [0x20AC%N]
  = Some [Utf8.octet 0xE2; Utf8.octet 0x82; Utf8.octet 0xAC].
Proof. reflexivity. Qed.

Example timeout_is_an_OSError : issubclass socket_timeout OSError = true.
Proof. reflexivity. Qed.

Example decode_error_is_no_timeout :
  issubclass UnicodeDecodeError socket_timeout = false.
Proof. reflexivity. Qed.

Example pack_minus_one : struct_pack_b (-1) = Ok [Utf8.octet 255].
Proof. reflexivity. Qed.

(** ** Membership: Should Messages (Not) Be Equal *)

Lemma str_eqb_true_iff (a b : str) : str_eqb a b = true <-> a = b.
Proof.
  unfold str_eqb. destruct (list_eq_dec N.eq_dec a b); split; intros H;
    try reflexivity; try assumption; try discriminate; contradiction.
Qed.

Lemma contains_true_iff (x : str) (xs : list str) :
  contains x xs = true <-> In x xs.
Proof.
  unfold contains. rewrite existsb_exists. split.
  - intros [y [Hin Heq]]. apply str_eqb_true_iff in Heq. now subst y.
  - intros Hin. exists x. split; [assumption | now apply str_eqb_true_iff].
Qed.

Lemma contains_false_iff (x : str) (xs : list str) :
  contains x xs = false <-> ~ In x xs.
Proof.
  rewrite <- contains_true_iff. destruct (contains x xs); split; intros H;
    try reflexivity; try discriminate; try (intros H'; discriminate).
  exfalso. now apply H.
Qed.

Example ping_in_ping_pong :
  Should_Messages_Be_Equal (lit "ping") [lit "ping"; lit "pong"] = Ok tt.
Proof. reflexivity. Qed.

Example missing_not_in_ping :
  Should_Messages_Be_Equal (lit "missing") [lit "ping"]
  = Raise (mkExn AssertionError
             (lit "'missing' is not found in the received message")).
Proof. reflexivity. Qed.

Example x_not_in_y_z :
  Should_Messages_Not_Be_Equal (lit "x") [lit "y"; lit "z"] = Ok tt.
Proof. reflexivity. Qed.

Example x_in_x :
  Should_Messages_Not_Be_Equal (lit "x") [lit "x"]
  = Raise (mkExn AssertionError (lit "'x' is found in the received message")).
Proof. reflexivity. Qed.

(** C6.  [Should_Messages_Be_Equal sent_msg recv_msg] returns normally
    exactly when [sent_msg] is a member of [recv_msg]; otherwise it raises
    an [AssertionError] whose message contains [sent_msg] itself (between
    a quote and the fixed text). *)
Theorem Should_Messages_Be_Equal_membership :
  forall (sent_msg : str) (recv_msg : list str),
    (Should_Messages_Be_Equal sent_msg recv_msg = Ok tt
     <-> In sent_msg recv_msg)
    /\ (In sent_msg recv_msg
        \/ exists before after : str,
             Should_Messages_Be_Equal sent_msg recv_msg
             = Raise (mkExn AssertionError (before ++ sent_msg ++ after))).
Proof.
  intros sent_msg recv_msg. unfold Should_Messages_Be_Equal.
  destruct (contains sent_msg recv_msg) eqn:Hc; simpl.
  - apply contains_true_iff in Hc. split; [tauto | now left].
  - apply contains_false_iff in Hc. split.
    + split; [discriminate | contradiction].
    + right. exists (lit "'"), (lit "' is not found in the received message").
      reflexivity.
Qed.

(** C7.  [Should_Messages_Not_Be_Equal] passes exactly when [sent_msg] is
    absent from [recv_msg], and raises an [AssertionError] exactly when
    [Should_Messages_Be_Equal] passes on the same arguments.  Both are
    functions of their two arguments alone. *)
Theorem Should_Messages_Not_Be_Equal_negation :
  forall (sent_msg : str) (recv_msg : list str),
    (Should_Messages_Not_Be_Equal sent_msg recv_msg = Ok tt
     <-> ~ In sent_msg recv_msg)
    /\ ((exists e, Should_Messages_Not_Be_Equal sent_msg recv_msg = Raise e
                   /\ exn_class e = AssertionError)
        <-> Should_Messages_Be_Equal sent_msg recv_msg = Ok tt)
    /\ ((exists e, Should_Messages_Be_Equal sent_msg recv_msg = Raise e
                   /\ exn_class e = AssertionError)
        <-> Should_Messages_Not_Be_Equal sent_msg recv_msg = Ok tt).
Proof.
  intros sent_msg recv_msg.
  unfold Should_Messages_Not_Be_Equal, Should_Messages_Be_Equal.
  destruct (contains sent_msg recv_msg) eqn:Hc; simpl.
  - apply contains_true_iff in Hc. repeat split; intros H;
      try discriminate; try contradiction; try tauto.
    + eexists. split; reflexivity.
    + destruct H as [e [H _]]. discriminate.
  - apply contains_false_iff in Hc. repeat split; intros H;
      try discriminate; try assumption; try reflexivity.
    + destruct H as [e [H _]]. discriminate.
    + eexists. split; reflexivity.
Qed.

(** ** Get Frame Counts *)

Lemma read_frames_length (video_obj : list frame) (frame_count : nat) :
  read_frames video_obj frame_count = frame_count + length video_obj.
Proof.
  revert frame_count.
  induction video_obj as [|f rest IH]; intros frame_count; simpl.
  - lia.
  - rewrite IH. lia.
Qed.

Lemma Get_Frame_count_existing (fs : filesystem) (video_file : str)
    (frames : list frame) :
  fs video_file = Some frames ->
  Get_Frame_count fs video_file = Ok (length frames).
Proof.
  intros Hfs. unfold Get_Frame_count, os_path_exists, VideoCapture.
  rewrite Hfs. now rewrite read_frames_length.
Qed.

(** The name [file] is bound nowhere: not in the method, not in the
    module, not among the built-ins. *)
Lemma file_is_unbound (video_file : str) :
  load_name [("self"%string, PObject "self");
             ("video_file"%string, PStr video_file)] "file"
  = Raise (mkExn NameError (lit "name 'file' is not defined")).
Proof. reflexivity. Qed.

(** On every absent path the keyword ends with the [NameError] raised
    while the message of the intended [FileNotFoundError] is built. *)
Lemma Get_Frame_count_absent (fs : filesystem) (video_file : str) :
  fs video_file = None ->
  Get_Frame_count fs video_file
  = Raise (mkExn NameError (lit "name 'file' is not defined")).
Proof.
  intros Hfs. unfold Get_Frame_count, os_path_exists. rewrite Hfs.
  rewrite file_is_unbound. reflexivity.
Qed.

Example Get_Frame_count_clip :
  Get_Frame_count one_clip (lit "clip.mp4") = Ok 3.
Proof. reflexivity. Qed.

(** C8.  What the keyword does for the absent file [missing.mp4]: the
    exception that reaches the caller is a [NameError] about the name
    [file]; it is not an instance of [FileNotFoundError] (nor of
    [OSError]) and its message does not name the absent file. *)
Theorem Get_Frame_count_missing_file_raises_NameError :
  os_path_exists one_clip (lit "missing.mp4") = false
  /\ Get_Frame_count one_clip (lit "missing.mp4")
     = Raise (mkExn NameError (lit "name 'file' is not defined"))
  /\ issubclass NameError FileNotFoundError = false
  /\ issubclass NameError OSError = false.
Proof.
  split; [reflexivity|].
  split; [apply Get_Frame_count_absent; reflexivity|].
  split; reflexivity.
Qed.

(** ** Ping *)

Example ping_localhost :
  ping probe_answers (lit "127.0.0.1") = Ok (VBool true).
Proof. reflexivity. Qed.

Example ping_hostname :
  ping probe_answers (lit "localhost") = Ok (VBool false).
Proof. reflexivity. Qed.

Example ping_unreachable :
  ping probe_unreachable (lit "10.0.0.1") = Ok (VBool false).
Proof. reflexivity. Qed.

(** C9, as stated, fails: not every probe failure is turned into
    [False].  An exception outside the handled classes reaches the
    caller, and a [NameError] makes the keyword return a string. *)
Lemma ping_probe_failures_not_all_False :
  ping probe_host_unknown (lit "no.such.host.example")
  = Raise (mkExn HostUnknown (lit "Cannot resolve: Unknown host."))
  /\ is_bool (ping probe_host_unknown (lit "no.such.host.example")) = false
  /\ ping probe_name_error (lit "127.0.0.1")
     = Ok (VStr (lit "module name 'ping3' is not defined"))
  /\ is_bool (ping probe_name_error (lit "127.0.0.1")) = false.
Proof. repeat split. Qed.

(** C9 (amended).  Whenever the probe, if it raises at all, raises a
    [TypeError] or an [OSError] (or a subclass of these), [ping] returns a
    boolean: [True] exactly when the address contains three full stops and
    the probe returns a true value (a non-zero delay), [False] in every
    other case (address of another shape, no reply, failed probe, raised
    [TypeError] or [OSError]). *)
Theorem ping_returns_bool :
  forall (ping3_ping : probe) (remote_host : str),
    (forall e, ping3_ping remote_host = Raise e ->
               caught_by e TypeError || caught_by e OSError = true) ->
    exists b : bool,
      ping ping3_ping remote_host = Ok (VBool b)
      /\ (b = true <->
          count_char full_stop remote_host = 3
          /\ exists r, ping3_ping remote_host = Ok r /\ truthy r = true).
Proof.
  intros ping3_ping remote_host Hraise. unfold ping.
  destruct (count_char full_stop remote_host =? 3) eqn:Hdots.
  - apply Nat.eqb_eq in Hdots.
    destruct (ping3_ping remote_host) as [r|e] eqn:Hprobe.
    + destruct (truthy r) eqn:Ht.
      * exists true. split; [reflexivity|]. split; [|reflexivity].
        intros _. split; [assumption|]. exists r. now split.
      * exists false. split; [reflexivity|]. split; [discriminate|].
        intros [_ [r' [Hr' Ht']]]. inversion Hr'; subst r'. congruence.
    + rewrite (Hraise e eq_refl). exists false. split; [reflexivity|].
      split; [discriminate|]. intros [_ [r [Hr _]]]. discriminate.
  - apply Nat.eqb_neq in Hdots. exists false. split; [reflexivity|].
    split; [discriminate|]. intros [H3 _]. contradiction.
Qed.

Lemma ping_returns_bool_witness :
  exists b : bool,
    ping probe_answers (lit "127.0.0.1") = Ok (VBool b)
    /\ (b = true <->
        count_char full_stop (lit "127.0.0.1") = 3
        /\ exists r, probe_answers (lit "127.0.0.1") = Ok r
                     /\ truthy r = true).
Proof.
  apply (ping_returns_bool probe_answers (lit "127.0.0.1")).
  intros e He. discriminate He.
Defined.

(** ** Create Send Socket *)

Lemma octet_to_N (n : N) : (n < 256)%N -> Byte.to_N (Utf8.octet n) = n.
Proof.
  intros Hn. unfold Utf8.octet.
  destruct (Byte.of_N n) as [b|] eqn:Hb.
  - now apply Byte.to_of_N.
  - apply Byte.of_N_None_iff in Hb. lia.
Qed.

Lemma struct_pack_b_in_range (v : Z) :
  (-128 <= v <= 127)%Z ->
  struct_pack_b v = Ok [Utf8.octet (Z.to_N (v mod 256))].
Proof.
  intros Hv. unfold struct_pack_b.
  replace ((-128 <=? v) && (v <=? 127))%Z with true; [reflexivity|].
  symmetry. apply andb_true_iff. split; apply Z.leb_le; lia.
Qed.

Lemma struct_pack_b_out_of_range (v : Z) :
  (v < -128 \/ 127 < v)%Z ->
  struct_pack_b v
  = Raise (mkExn struct_error (lit "byte format requires -128 <= number <= 127")).
Proof.
  intros Hv. unfold struct_pack_b.
  replace ((-128 <=? v) && (v <=? 127))%Z with false; [reflexivity|].
  symmetry. apply andb_false_iff.
  destruct Hv; [left; apply Z.leb_gt | right; apply Z.leb_gt]; lia.
Qed.

Example Create_Send_Socket_default :
  Create_Send_Socket [] 5
  = ([Sys_socket 2 2 17; Sys_setsockopt 3 0 33 [Utf8.octet 5]],
     Ok (mkSocket 3 [(0, 33, [Utf8.octet 5])%Z] None)).
Proof. reflexivity. Qed.

(** A negative [ttl] is packed as well; the kernel reads the octet as
    unsigned. *)
Example Create_Send_Socket_minus_one :
  exists send_sock,
    snd (Create_Send_Socket [] (-1)) = Ok send_sock
    /\ multicast_ttl send_sock = 255%Z.
Proof. eexists. split; reflexivity. Qed.

(** C5, as stated, fails: 200 lies in 0..255 and is refused, and the
    refusal of 300 comes from [struct.pack]: no option-set call is ever
    issued. *)
Lemma Create_Send_Socket_refuses_200 :
  Create_Send_Socket [] 200
  = ([Sys_socket AF_INET SOCK_DGRAM IPPROTO_UDP],
     Raise (mkExn struct_error
              (lit "byte format requires -128 <= number <= 127")))
  /\ existsb is_Sys_setsockopt (fst (Create_Send_Socket [] 300)) = false.
Proof. split; reflexivity. Qed.

(** C5 (amended).  [Create_Send_Socket ttl] accepts every [ttl] from 0 to
    127: it creates the UDP socket and sets its multicast TTL option to
    that value.  Every [ttl] outside the signed-byte range -128..127 makes
    the call fail with [struct.error] while the value is packed, after the
    socket has been created and before any option-set call; nothing is
    truncated. *)
Theorem Create_Send_Socket_ttl :
  forall (trace : list syscall) (ttl : Z),
    ((0 <= ttl <= 127)%Z ->
     exists send_sock,
       Create_Send_Socket trace ttl
       = (trace ++ [Sys_socket AF_INET SOCK_DGRAM IPPROTO_UDP;
                    Sys_setsockopt (fileno send_sock) IPPROTO_IP
                      IP_MULTICAST_TTL [Utf8.octet (Z.to_N ttl)]],
          Ok send_sock)
       /\ multicast_ttl send_sock = ttl)
    /\ ((ttl < -128 \/ 127 < ttl)%Z ->
        exists e,
          Create_Send_Socket trace ttl
          = (trace ++ [Sys_socket AF_INET SOCK_DGRAM IPPROTO_UDP], Raise e)
          /\ exn_class e = struct_error).
Proof.
  intros trace ttl. unfold Create_Send_Socket, socket_socket. split.
  - intros Httl. rewrite struct_pack_b_in_range by lia.
    rewrite Z.mod_small by lia. unfold setsockopt. simpl.
    exists (mkSocket (3 + length (filter is_Sys_socket trace))
              [(IPPROTO_IP, IP_MULTICAST_TTL, [Utf8.octet (Z.to_N ttl)])]
              None).
    split.
    + rewrite <- app_assoc. reflexivity.
    + unfold multicast_ttl. simpl.
      rewrite octet_to_N by lia. lia.
  - intros Httl. rewrite struct_pack_b_out_of_range by assumption.
    eexists. split; reflexivity.
Qed.

Lemma Create_Send_Socket_ttl_witness :
  (exists send_sock,
     Create_Send_Socket [] 64
     = ([] ++ [Sys_socket AF_INET SOCK_DGRAM IPPROTO_UDP;
               Sys_setsockopt (fileno send_sock) IPPROTO_IP
                 IP_MULTICAST_TTL [Utf8.octet (Z.to_N 64)]],
        Ok send_sock)
     /\ multicast_ttl send_sock = 64%Z)
  /\ (exists e,
        Create_Send_Socket [] 300
        = ([] ++ [Sys_socket AF_INET SOCK_DGRAM IPPROTO_UDP], Raise e)
        /\ exn_class e = struct_error).
Proof.
  split.
  - apply (proj1 (Create_Send_Socket_ttl [] 64)). lia.
  - apply (proj2 (Create_Send_Socket_ttl [] 300)). lia.
Defined.

(** ** The UTF-8 codec: octets consumed and produced *)

Ltac bool_to_prop :=
  repeat match goal with
    | H : (_ && _) = true |- _ => apply andb_true_iff in H; destruct H
    | H : negb _ = true |- _ => apply negb_true_iff in H
    | H : (_ <=? _)%N = true |- _ => apply N.leb_le in H
    | H : (_ <=? _)%N = false |- _ => apply N.leb_gt in H
    | H : (_ <? _)%N = true |- _ => apply N.ltb_lt in H
    | H : (_ <? _)%N = false |- _ => apply N.ltb_ge in H
    end.

Lemma width_1 (cp : N) : (cp < 0x80)%N -> Utf8.width cp = 1.
Proof.
  intros H. unfold Utf8.width.
  destruct (cp <? 0x80)%N eqn:E; [reflexivity | bool_to_prop; lia].
Qed.

Lemma width_2 (cp : N) : (0x80 <= cp < 0x800)%N -> Utf8.width cp = 2.
Proof.
  intros H. unfold Utf8.width.
  destruct (cp <? 0x80)%N eqn:E1; [bool_to_prop; lia|].
  destruct (cp <? 0x800)%N eqn:E2; [reflexivity | bool_to_prop; lia].
Qed.

Lemma width_3 (cp : N) : (0x800 <= cp < 0x10000)%N -> Utf8.width cp = 3.
Proof.
  intros H. unfold Utf8.width.
  destruct (cp <? 0x80)%N eqn:E1; [bool_to_prop; lia|].
  destruct (cp <? 0x800)%N eqn:E2; [bool_to_prop; lia|].
  destruct (cp <? 0x10000)%N eqn:E3; [reflexivity | bool_to_prop; lia].
Qed.

Lemma width_4 (cp : N) : (0x10000 <= cp)%N -> Utf8.width cp = 4.
Proof.
  intros H. unfold Utf8.width.
  destruct (cp <? 0x80)%N eqn:E1; [bool_to_prop; lia|].
  destruct (cp <? 0x800)%N eqn:E2; [bool_to_prop; lia|].
  destruct (cp <? 0x10000)%N eqn:E3; [bool_to_prop; lia | reflexivity].
Qed.

Lemma encode_cp_length (cp : N) (b : bytes) :
  Utf8.encode_cp cp = Some b -> length b = Utf8.width cp.
Proof.
  unfold Utf8.encode_cp, Utf8.width.
  destruct (cp <? 0x80)%N; [intros H; now inversion H|].
  destruct (cp <? 0x800)%N; [intros H; now inversion H|].
  destruct (cp <? 0x10000)%N.
  - destruct (Utf8.is_surrogate cp); [discriminate | intros H; now inversion H].
  - destruct (cp <? 0x110000)%N; [intros H; now inversion H | discriminate].
Qed.

(** The encoder emits [encoded_length s] octets. *)
Lemma encode_length (s : str) (b : bytes) :
  Utf8.encode s = Some b -> length b = Utf8.encoded_length s.
Proof.
  revert b. induction s as [|cp rest IH]; intros b; simpl.
  - intros H. now inversion H.
  - destruct (Utf8.encode_cp cp) as [b1|] eqn:Hcp; [|discriminate].
    destruct (Utf8.encode rest) as [b2|]; [|discriminate].
    intros H. inversion H; subst b. rewrite length_app.
    rewrite (encode_cp_length _ Hcp), (IH b2 eq_refl). reflexivity.
Qed.

Lemma decode_cons (b0 : Byte.byte) (r0 : bytes) :
  Utf8.decode (b0 :: r0) =
  let n0 := Byte.to_N b0 in
  if (n0 <? 0x80)%N then option_map (cons n0) (Utf8.decode r0)
  else if (n0 <? 0xC0)%N then None
  else if (n0 <? 0xE0)%N then
    match r0 with
    | b1 :: r1 =>
        let n1 := Byte.to_N b1 in
        let cp := ((n0 - 0xC0) * 64 + (n1 - 0x80))%N in
        if Utf8.is_cont n1 && (0x80 <=? cp)%N
        then option_map (cons cp) (Utf8.decode r1)
        else None
    | _ => None
    end
  else if (n0 <? 0xF0)%N then
    match r0 with
    | b1 :: b2 :: r2 =>
        let n1 := Byte.to_N b1 in
        let n2 := Byte.to_N b2 in
        let cp := ((n0 - 0xE0) * 4096 + (n1 - 0x80) * 64 + (n2 - 0x80))%N in
        if Utf8.is_cont n1 && Utf8.is_cont n2 && (0x800 <=? cp)%N
           && negb (Utf8.is_surrogate cp)
        then option_map (cons cp) (Utf8.decode r2)
        else None
    | _ => None
    end
  else if (n0 <? 0xF8)%N then
    match r0 with
    | b1 :: b2 :: b3 :: r3 =>
        let n1 := Byte.to_N b1 in
        let n2 := Byte.to_N b2 in
        let n3 := Byte.to_N b3 in
        let cp := ((n0 - 0xF0) * 262144 + (n1 - 0x80) * 4096
                   + (n2 - 0x80) * 64 + (n3 - 0x80))%N in
        if Utf8.is_cont n1 && Utf8.is_cont n2 && Utf8.is_cont n3
           && (0x10000 <=? cp)%N && (cp <? 0x110000)%N
        then option_map (cons cp) (Utf8.decode r3)
        else None
    | _ => None
    end
  else None.
Proof. reflexivity. Qed.

Lemma option_map_cons_inv (cp : N) (o : option str) (text : str) :
  option_map (cons cp) o = Some text ->
  exists rest, o = Some rest /\ text = cp :: rest.
Proof.
  destruct o as [rest|]; simpl; intros H; [|discriminate].
  inversion H. now exists rest.
Qed.

Lemma decode_length_upto (n : nat) :
  forall (data : bytes) (text : str),
    length data <= n ->
    Utf8.decode data = Some text ->
    Utf8.encoded_length text = length data.
Proof.
  induction n as [|n IH]; intros data text Hlen Hdec.
  - destruct data; [|simpl in Hlen; lia].
    simpl in Hdec. inversion Hdec. reflexivity.
  - destruct data as [|b0 r0].
    { simpl in Hdec. inversion Hdec. reflexivity. }
    rewrite decode_cons in Hdec. cbv zeta in Hdec.
    simpl in Hlen.
    destruct (Byte.to_N b0 <? 0x80)%N eqn:E1.
    { apply option_map_cons_inv in Hdec. destruct Hdec as [rest [Hr ->]].
      bool_to_prop. simpl. rewrite width_1 by assumption.
      rewrite (IH r0 rest) by (assumption || lia). reflexivity. }
    destruct (Byte.to_N b0 <? 0xC0)%N eqn:E2; [discriminate|].
    destruct (Byte.to_N b0 <? 0xE0)%N eqn:E3.
    { destruct r0 as [|b1 r1]; [discriminate|].
      match type of Hdec with (if ?c then _ else _) = _ =>
        destruct c eqn:Ec; [|discriminate] end.
      apply option_map_cons_inv in Hdec. destruct Hdec as [rest [Hr ->]].
      unfold Utf8.is_cont in Ec. bool_to_prop. simpl in Hlen |- *.
      rewrite width_2 by lia.
      rewrite (IH r1 rest) by (assumption || lia). reflexivity. }
    destruct (Byte.to_N b0 <? 0xF0)%N eqn:E4.
    { destruct r0 as [|b1 [|b2 r2]]; try discriminate.
      match type of Hdec with (if ?c then _ else _) = _ =>
        destruct c eqn:Ec; [|discriminate] end.
      apply option_map_cons_inv in Hdec. destruct Hdec as [rest [Hr ->]].
      unfold Utf8.is_cont in Ec. bool_to_prop. simpl in Hlen |- *.
      rewrite width_3 by lia.
      rewrite (IH r2 rest) by (assumption || lia). reflexivity. }
    destruct (Byte.to_N b0 <? 0xF8)%N eqn:E5; [|discriminate].
    destruct r0 as [|b1 [|b2 [|b3 r3]]]; try discriminate.
    match type of Hdec with (if ?c then _ else _) = _ =>
      destruct c eqn:Ec; [|discriminate] end.
    apply option_map_cons_inv in Hdec. destruct Hdec as [rest [Hr ->]].
    unfold Utf8.is_cont in Ec. bool_to_prop. simpl in Hlen |- *.
    rewrite width_4 by lia.
    rewrite (IH r3 rest) by (assumption || lia). reflexivity.
Qed.

(** A text that decodes from [data] re-encodes to as many octets as
    [data] has. *)
Lemma decode_length (data : bytes) (text : str) :
  Utf8.decode data = Some text ->
  Utf8.encoded_length text = length data.
Proof. apply (decode_length_upto (n := length data)). lia. Qed.

(** No text is both what a datagram encodes and what a strict prefix of
    the datagram decodes to. *)
Lemma truncated_text_differs (message text : str) (sent : bytes) (n : nat) :
  n < length sent ->
  Utf8.encode message = Some sent ->
  Utf8.decode (firstn n sent) = Some text ->
  text <> message.
Proof.
  intros Hn Henc Hdec Heq. subst text.
  apply encode_length in Henc. apply decode_length in Hdec.
  rewrite length_firstn in Hdec. lia.
Qed.

(** ** Receive Multicast Message *)

Lemma receive_loop_nil (failure : exn) (acc : list str) :
  receive_loop [] failure acc = (acc, failure).
Proof. reflexivity. Qed.

Lemma receive_loop_cons (sent : bytes) (src : address)
    (rest : list (bytes * address)) (failure : exn) (acc : list str) :
  receive_loop ((sent, src) :: rest) failure acc
  = match bytes_decode (recvfrom_data 1024 sent) with
    | Ok text => receive_loop rest failure (acc ++ [text])
    | Raise e => (acc, e)
    end.
Proof. reflexivity. Qed.

Lemma receive_loop_all_decoded (incoming : list (bytes * address))
    (failure : exn) (texts : list str) :
  Forall2 delivered incoming texts ->
  forall acc, receive_loop incoming failure acc = (acc ++ texts, failure).
Proof.
  induction 1 as [|[sent src] text incoming texts Hd _ IH]; intros acc.
  - now rewrite receive_loop_nil, app_nil_r.
  - unfold delivered in Hd. cbn [fst] in Hd.
    rewrite receive_loop_cons. unfold bytes_decode. rewrite Hd.
    rewrite IH, <- app_assoc. reflexivity.
Qed.

(** If the loop ends with a timeout, then every datagram was decoded and
    the timeout came from [recvfrom]. *)
Lemma receive_loop_timeout_inv (incoming : list (bytes * address))
    (failure : exn) :
  forall (acc msgs : list str) (e : exn),
    receive_loop incoming failure acc = (msgs, e) ->
    caught_by e socket_timeout = true ->
    e = failure
    /\ exists texts, msgs = acc ++ texts /\ Forall2 delivered incoming texts.
Proof.
  induction incoming as [|[sent src] rest IH]; intros acc msgs e Hloop Hto.
  - rewrite receive_loop_nil in Hloop. inversion Hloop; subst.
    split; [reflexivity|].
    exists []. split; [now rewrite app_nil_r | constructor].
  - rewrite receive_loop_cons in Hloop. unfold bytes_decode in Hloop.
    destruct (Utf8.decode (recvfrom_data 1024 sent)) as [text|] eqn:Hd.
    + destruct (IH _ _ _ Hloop Hto) as [He [texts [Hm Hf]]].
      split; [assumption|]. exists (text :: texts). split.
      * rewrite Hm, <- app_assoc. reflexivity.
      * constructor; assumption.
    + inversion Hloop; subst. discriminate Hto.
Qed.

(** The first datagram whose first 1024 octets are not well-formed UTF-8
    ends the loop with a [UnicodeDecodeError]. *)
Lemma receive_loop_undecodable (before after : list (bytes * address))
    (a : bytes * address) (failure : exn) (texts : list str) :
  Forall2 delivered before texts ->
  Utf8.decode (recvfrom_data 1024 (fst a)) = None ->
  forall acc,
    exists e, receive_loop (before ++ a :: after) failure acc
              = (acc ++ texts, e)
              /\ exn_class e = UnicodeDecodeError.
Proof.
  intros Hbefore Hbad.
  induction Hbefore as [|[sent src] text before texts Hd _ IH]; intros acc.
  - destruct a as [sent src]. cbn [fst] in Hbad. cbn [app].
    rewrite receive_loop_cons. unfold bytes_decode.
    rewrite Hbad. eexists. split; [now rewrite app_nil_r | reflexivity].
  - unfold delivered in Hd. cbn [fst] in Hd. cbn [app].
    rewrite receive_loop_cons. unfold bytes_decode at 1.
    rewrite Hd. destruct (IH (acc ++ [text])) as [e [He Hc]].
    exists e. split; [|assumption]. rewrite He, <- app_assoc. reflexivity.
Qed.

Lemma settimeout_ok (sock : socket_obj) (value : Q) :
  (0 <= value)%Q ->
  settimeout sock value
  = Ok (mkSocket (fileno sock) (sockopts sock) (Some value)).
Proof.
  intros H. unfold settimeout.
  apply Qle_bool_iff in H. now rewrite H.
Qed.

Example receive_ping_ping_pong :
  Receive_Multicast_Message ping_ping_pong recv_socket 5
  = (mkSocket 4 [] (Some 5%Q), Ok [lit "ping"; lit "ping"; lit "pong"]).
Proof. reflexivity. Qed.

Example receive_ping_then_closed :
  snd (Receive_Multicast_Message ping_then_closed recv_socket 5)
  = Raise bad_descriptor.
Proof. reflexivity. Qed.

Example receive_negative_timeout :
  snd (Receive_Multicast_Message ping_ping_pong recv_socket (-1))
  = Raise (mkExn ValueError (lit "Timeout value out of range")).
Proof. reflexivity. Qed.

(** A window whose datagrams all decode and that ends with a timeout
    yields the list of the decoded texts. *)
Lemma Receive_Multicast_Message_returns (t : traffic) (recv_sock : socket_obj)
    (timeout : Q) (texts : list str) :
  (0 <= timeout)%Q ->
  Forall2 delivered (arrivals t) texts ->
  caught_by (failure t) socket_timeout = true ->
  Receive_Multicast_Message t recv_sock timeout
  = (mkSocket (fileno recv_sock) (sockopts recv_sock) (Some timeout), Ok texts).
Proof.
  intros Hto Hall Hc. unfold Receive_Multicast_Message.
  rewrite settimeout_ok by assumption.
  rewrite (receive_loop_all_decoded (failure t) Hall []). cbn [app].
  now rewrite Hc.
Qed.

(** The same window ending with any other exception passes it on. *)
Lemma Receive_Multicast_Message_propagates (t : traffic)
    (recv_sock : socket_obj) (timeout : Q) (texts : list str) :
  (0 <= timeout)%Q ->
  Forall2 delivered (arrivals t) texts ->
  caught_by (failure t) socket_timeout = false ->
  Receive_Multicast_Message t recv_sock timeout
  = (mkSocket (fileno recv_sock) (sockopts recv_sock) (Some timeout),
     Raise (failure t)).
Proof.
  intros Hto Hall Hc. unfold Receive_Multicast_Message.
  rewrite settimeout_ok by assumption.
  rewrite (receive_loop_all_decoded (failure t) Hall []). cbn [app].
  now rewrite Hc.
Qed.

(** A returned list is made of the decodings of the datagrams' first
    1024 octets, in order. *)
Lemma Receive_Multicast_Message_Ok_inv (t : traffic) (recv_sock : socket_obj)
    (timeout : Q) (received_messages : list str) :
  snd (Receive_Multicast_Message t recv_sock timeout) = Ok received_messages ->
  Forall2 delivered (arrivals t) received_messages.
Proof.
  unfold Receive_Multicast_Message.
  destruct (settimeout recv_sock timeout) as [sock'|e0]; [|discriminate].
  destruct (receive_loop (arrivals t) (failure t) []) as [msgs e] eqn:Hloop.
  destruct (caught_by e socket_timeout) eqn:Hc; cbn [snd]; [|discriminate].
  intros Hok. inversion Hok; subst msgs.
  destruct (receive_loop_timeout_inv _ _ _ Hloop Hc) as [_ [texts [Hm Hf]]].
  cbn [app] in Hm. now subst texts.
Qed.

Lemma delivered_is_cut (a : bytes * address) (text : str) :
  delivered a text -> delivered_cut a text.
Proof.
  destruct a as [sent src]. unfold delivered, delivered_cut, recvfrom_data.
  cbn [fst]. intros Hd. split; [assumption|]. intros Hlong. split.
  - rewrite length_firstn. lia.
  - intros message Henc. eapply truncated_text_differs; eassumption.
Qed.

(** C3.  With a valid timeout the keyword sets it on the socket.  When
    [recvfrom], after handing over the datagrams of the window, raises a
    timeout, the loop ends normally and the accumulated list is returned;
    with no datagram at all that list is empty.  When it raises anything
    that is not a timeout, that exception reaches the caller and no list
    is returned.  ([recvfrom] gets to raise when every datagram before
    could be decoded, which is what the second hypothesis says.) *)
Theorem Receive_Multicast_Message_timeout_handling :
  forall (t : traffic) (recv_sock : socket_obj) (timeout : Q)
         (texts : list str),
    (0 <= timeout)%Q ->
    Forall2 delivered (arrivals t) texts ->
    Net.timeout (fst (Receive_Multicast_Message t recv_sock timeout))
    = Some timeout
    /\ (caught_by (failure t) socket_timeout = true ->
        snd (Receive_Multicast_Message t recv_sock timeout) = Ok texts
        /\ (arrivals t = [] -> texts = []))
    /\ (caught_by (failure t) socket_timeout = false ->
        snd (Receive_Multicast_Message t recv_sock timeout)
        = Raise (failure t)).
Proof.
  intros t recv_sock timeout texts Hto Hall.
  destruct (caught_by (failure t) socket_timeout) eqn:Hc.
  - rewrite (@Receive_Multicast_Message_returns t recv_sock timeout texts Hto Hall Hc).
    cbn [fst snd Net.timeout].
    split; [reflexivity|]. split; [|discriminate].
    intros _. split; [reflexivity|].
    intros Hnil. rewrite Hnil in Hall. now inversion Hall.
  - rewrite (@Receive_Multicast_Message_propagates t recv_sock timeout texts Hto Hall Hc).
    cbn [fst snd Net.timeout].
    split; [reflexivity|]. split; [discriminate|].
    intros _. reflexivity.
Qed.

Lemma Receive_Multicast_Message_timeout_handling_witness :
  Net.timeout (fst (Receive_Multicast_Message ping_ping_pong recv_socket 5))
  = Some 5%Q
  /\ (caught_by (failure ping_ping_pong) socket_timeout = true ->
      snd (Receive_Multicast_Message ping_ping_pong recv_socket 5)
      = Ok [lit "ping"; lit "ping"; lit "pong"]
      /\ (arrivals ping_ping_pong = []
          -> [lit "ping"; lit "ping"; lit "pong"] = []))
  /\ (caught_by (failure ping_ping_pong) socket_timeout = false ->
      snd (Receive_Multicast_Message ping_ping_pong recv_socket 5)
      = Raise (failure ping_ping_pong)).
Proof.
  apply (@Receive_Multicast_Message_timeout_handling
           ping_ping_pong recv_socket 5
           [lit "ping"; lit "ping"; lit "pong"]).
  - discriminate.
  - repeat constructor.
Defined.

(** C4.  A window of decodable datagrams that ends with a timeout makes
    the keyword return a list, and a list returned by the keyword holds
    exactly one entry for each datagram of the window, at the datagram's
    position in the order of arrival: nothing is dropped, merged or
    reordered. *)
Theorem Receive_Multicast_Message_arrival_order :
  forall (t : traffic) (recv_sock : socket_obj) (timeout : Q),
    (forall texts,
        (0 <= timeout)%Q ->
        caught_by (failure t) socket_timeout = true ->
        Forall2 delivered (arrivals t) texts ->
        snd (Receive_Multicast_Message t recv_sock timeout) = Ok texts)
    /\ (forall received_messages,
          snd (Receive_Multicast_Message t recv_sock timeout)
          = Ok received_messages ->
          Forall2 delivered (arrivals t) received_messages
          /\ length received_messages = length (arrivals t)).
Proof.
  intros t recv_sock timeout. split.
  - intros texts Hto Hc Hall.
    now rewrite (@Receive_Multicast_Message_returns t recv_sock timeout texts Hto Hall Hc).
  - intros received_messages Hok.
    apply Receive_Multicast_Message_Ok_inv in Hok.
    split; [assumption|].
    symmetry. eapply Forall2_length. eassumption.
Qed.

Lemma Receive_Multicast_Message_arrival_order_witness :
  snd (Receive_Multicast_Message ping_ping_pong recv_socket 5)
  = Ok [lit "ping"; lit "ping"; lit "pong"]
  /\ Forall2 delivered (arrivals ping_ping_pong)
       [lit "ping"; lit "ping"; lit "pong"]
  /\ length [lit "ping"; lit "ping"; lit "pong"]
     = length (arrivals ping_ping_pong).
Proof.
  split.
  - apply (proj1 (@Receive_Multicast_Message_arrival_order
                    ping_ping_pong recv_socket 5)).
    + discriminate.
    + reflexivity.
    + repeat constructor.
  - apply (proj2 (@Receive_Multicast_Message_arrival_order
                    ping_ping_pong recv_socket 5)).
    reflexivity.
Defined.

(** C10, as stated, fails: the message of 1023 letters and one
    two-octet character is sent as 1025 octets; its first 1024 octets end
    in the middle of that character, so nothing is appended and the
    keyword raises [UnicodeDecodeError] instead of returning a list. *)
Lemma Receive_Multicast_Message_cut_character :
  Utf8.encode long_message = Some long_datagram
  /\ length long_datagram = 1025
  /\ snd (Receive_Multicast_Message one_long_datagram recv_socket 5)
     = Raise (mkExn UnicodeDecodeError
                (lit "'utf-8' codec can't decode bytes: invalid data")).
Proof. vm_compute. repeat split. Qed.

(** C10 (amended).  The keyword reads at most 1024 octets of each
    datagram.  When the first 1024 octets of every datagram decode and
    the window ends with a timeout, the keyword returns a list; in a list
    it returns, the entry of every datagram is the decoding of the
    datagram's first 1024 octets, and for a datagram longer than that the
    entry differs from the message that was sent.  When the first 1024
    octets of a datagram are not well-formed UTF-8 (the cut falls inside
    a character), nothing is appended and the keyword raises
    [UnicodeDecodeError]. *)
Theorem Receive_Multicast_Message_truncates :
  forall (t : traffic) (recv_sock : socket_obj) (timeout : Q),
    (forall texts,
        (0 <= timeout)%Q ->
        caught_by (failure t) socket_timeout = true ->
        Forall2 delivered (arrivals t) texts ->
        snd (Receive_Multicast_Message t recv_sock timeout) = Ok texts)
    /\ (forall received_messages,
          snd (Receive_Multicast_Message t recv_sock timeout)
          = Ok received_messages ->
          Forall2 delivered_cut (arrivals t) received_messages)
    /\ (forall before a after texts,
          (0 <= timeout)%Q ->
          arrivals t = before ++ a :: after ->
          Forall2 delivered before texts ->
          Utf8.decode (firstn 1024 (fst a)) = None ->
          exists e,
            snd (Receive_Multicast_Message t recv_sock timeout) = Raise e
            /\ exn_class e = UnicodeDecodeError).
Proof.
  intros t recv_sock timeout. split; [|split].
  - intros texts Hto Hc Hall.
    now rewrite (@Receive_Multicast_Message_returns t recv_sock timeout texts Hto Hall Hc).
  - intros received_messages Hok.
    apply Receive_Multicast_Message_Ok_inv in Hok.
    revert Hok. apply Forall2_impl. exact delivered_is_cut.
  - intros before a after texts Hto Harr Hbefore Hbad.
    unfold Receive_Multicast_Message.
    rewrite settimeout_ok by assumption. rewrite Harr.
    destruct (receive_loop_undecodable after a (failure t) Hbefore Hbad [])
      as [e [He Hc]].
    rewrite He. exists e.
    assert (Hnc : caught_by e socket_timeout = false).
    { unfold caught_by. rewrite Hc. reflexivity. }
    rewrite Hnc. split; [reflexivity | assumption].
Qed.

Lemma Receive_Multicast_Message_truncates_witness :
  snd (Receive_Multicast_Message one_long_ascii_datagram recv_socket 5)
  = Ok [repeat 97%N 1024]
  /\ Forall2 delivered_cut (arrivals one_long_ascii_datagram)
       [repeat 97%N 1024]
  /\ exists e,
       snd (Receive_Multicast_Message one_long_datagram recv_socket 5) = Raise e
       /\ exn_class e = UnicodeDecodeError.
Proof.
  split; [|split].
  - apply (proj1 (@Receive_Multicast_Message_truncates
                    one_long_ascii_datagram recv_socket 5)).
    + discriminate.
    + reflexivity.
    + constructor; [vm_compute; reflexivity | constructor].
  - apply (proj1 (proj2 (@Receive_Multicast_Message_truncates
                           one_long_ascii_datagram recv_socket 5))).
    vm_compute. reflexivity.
  - apply (proj2 (proj2 (@Receive_Multicast_Message_truncates
                           one_long_datagram recv_socket 5))
             [] (long_datagram, peer) [] []).
    + discriminate.
    + reflexivity.
    + constructor.
    + vm_compute. reflexivity.
Defined.

(** ** Send Multicast Message *)

Example send_punctual :
  exists w',
    Send_Multicast_Message punctual send_socket default_group 5999
      (lit "hello") 1 5 10 quiet_world = Some w'
    /\ wire w' = repeat hello 6.
Proof. eexists. split; reflexivity. Qed.

(** With a millisecond of delay per iteration the sixth clock reading
    comes after the deadline. *)
Example send_brisk :
  exists w',
    Send_Multicast_Message brisk send_socket default_group 5999
      (lit "hello") 1 5 10 quiet_world = Some w'
    /\ wire w' = repeat hello 5.
Proof. eexists. split; reflexivity. Qed.

Example send_interrupted :
  exists w',
    Send_Multicast_Message interrupted send_socket default_group 5999
      (lit "hello") 1 5 10 quiet_world = Some w'
    /\ wire w' = repeat hello 2.
Proof. eexists. split; reflexivity. Qed.

(** A negative interval ends the thread after the first datagram; the
    keyword still returns. *)
Example send_negative_interval :
  exists w',
    Send_Multicast_Message punctual send_socket default_group 5999
      (lit "hello") (-1) 5 10 quiet_world = Some w'
    /\ wire w' = [hello].
Proof. eexists. split; reflexivity. Qed.

(** Port 0 passes the range check of the interpreter but is turned down
    by the system: the thread ends before anything is sent. *)
Example send_port_0 :
  send_loop punctual send_socket default_group 0 (lit "hello") 1 5 10
    quiet_world
  = Some (quiet_world,
          Raise (mkExn OSError (lit "[Errno 22] Invalid argument"))).
Proof. reflexivity. Qed.

(** A message of 65508 octets is one octet too long for a datagram. *)
Example send_too_long :
  send_loop punctual send_socket default_group 5999
    (repeat 97%N (65 * 1000 + 508)) 1 5 10 quiet_world
  = Some (quiet_world,
          Raise (mkExn OSError (lit "[Errno 90] Message too long"))).
Proof. vm_compute. reflexivity. Qed.

(** The host is resolved before the port is checked against 0..65535. *)
Example sendto_resolves_first :
  sendto (mkSurroundings (fun _ => 0%Q) (fun _ => false) (fun _ => false)
            (fun _ => true) (fun _ => None) (fun _ => None))
    send_socket (ascii_bytes "hello") (lit "no.such.host", 70000%Z)
    quiet_world
  = (quiet_world,
     Raise (mkExn gaierror (lit "[Errno -2] Name or service not known"))).
Proof. reflexivity. Qed.

(** A sleep of 10^10 seconds is more than 2^63 nanoseconds. *)
Example sleep_too_long :
  time_sleep 10000000000 quiet_world
  = (quiet_world,
     Raise (mkExn OverflowError
              (lit "timestamp too large to convert to C _PyTime_t"))).
Proof. reflexivity. Qed.

Lemma Qgt_bool_true (a b : Q) : Qgt_bool a b = true <-> (b < a)%Q.
Proof.
  unfold Qgt_bool. rewrite negb_true_iff. split.
  - intros H. apply Qnot_le_lt. intros Hle.
    apply Qle_bool_iff in Hle. congruence.
  - intros H. destruct (Qle_bool a b) eqn:E; [|reflexivity].
    apply Qle_bool_iff in E. exfalso. revert E. now apply Qlt_not_le.
Qed.

Lemma Qgt_bool_false (a b : Q) : Qgt_bool a b = false <-> (a <= b)%Q.
Proof.
  unfold Qgt_bool. rewrite negb_false_iff. apply Qle_bool_iff.
Qed.

Lemma sched_0 (interval : Q) : (sched interval 0 == 0)%Q.
Proof. unfold sched. change (inject_Z (Z.of_nat 0)) with 0%Q. ring. Qed.

Lemma sched_S (interval : Q) (k : nat) :
  (sched interval (S k) == sched interval k + interval)%Q.
Proof.
  unfold sched. rewrite Nat2Z.inj_succ. unfold Z.succ.
  rewrite inject_Z_plus. change (inject_Z 1) with 1%Q. ring.
Qed.

Lemma sched_mono (interval : Q) (j k : nat) :
  (0 <= interval)%Q -> j <= k ->
  (sched interval j <= sched interval k)%Q.
Proof.
  intros Hi Hjk. induction Hjk as [|k Hjk IH].
  - lra.
  - rewrite sched_S. lra.
Qed.

Lemma send_loop_from_S (env : surroundings) (send_sock : socket_obj)
    (multicast_group : str) (port : Z) (message : str)
    (interval duration : Q) (fuel k : nat) (start_time : Q) (w : world) :
  send_loop_from env send_sock multicast_group port message interval duration
    (S fuel) k start_time w
  = let w := if stop_request env k then event_set w else w in
    if stop_sending w then Some (w, Ok tt)
    else
      let w := time_passes (lag env k) w in
      if Qgt_bool (clock w - start_time) duration then Some (w, Ok tt)
      else
        match str_encode message with
        | Raise e => Some (w, Raise e)
        | Ok encoded_message =>
            match sendto env send_sock encoded_message
                    (multicast_group, port) w with
            | (w, Raise e) => Some (w, Raise e)
            | (w, Ok _) =>
                match time_sleep interval w with
                | (w, Raise e) => Some (w, Raise e)
                | (w, Ok _) =>
                    send_loop_from env send_sock multicast_group port message
                      interval duration fuel (S k) start_time w
                end
            end
        end.
Proof. reflexivity. Qed.

(** More fuel does not change a result that was reached. *)
Lemma send_loop_from_more_fuel (env : surroundings) (send_sock : socket_obj)
    (multicast_group : str) (port : Z) (message : str)
    (interval duration : Q) (start_time : Q) :
  forall (fuel fuel' k : nat) (w : world) (r : world * result unit),
    send_loop_from env send_sock multicast_group port message interval
      duration fuel k start_time w = Some r ->
    fuel <= fuel' ->
    send_loop_from env send_sock multicast_group port message interval
      duration fuel' k start_time w = Some r.
Proof.
  induction fuel as [|fuel IH]; intros fuel' k w r Hrun Hle.
  - discriminate Hrun.
  - destruct fuel' as [|fuel']; [lia|].
    rewrite send_loop_from_S in Hrun |- *. cbv zeta in Hrun |- *.
    destruct (stop_sending (if stop_request env k then event_set w else w));
      [assumption|].
    destruct (Qgt_bool _ duration); [assumption|].
    destruct (str_encode message) as [encoded|e]; [|assumption].
    destruct (sendto env send_sock encoded (multicast_group, port) _)
      as [w1 [[]|e1]]; [|assumption].
    destruct (time_sleep interval w1) as [w2 [[]|e2]]; [|assumption].
    apply IH; [assumption | lia].
Qed.

(** *** What [sendto] and [sleep] do *)

Lemma host_converts_true (env : surroundings) (host : str) :
  host_converts env host = true ->
  is_ascii host || idna env host = true /\ has_null host = false.
Proof.
  unfold host_converts. intros H. apply andb_true_iff in H.
  destruct H as [Hnull Hname]. apply negb_true_iff in Hnull. now split.
Qed.

Lemma sendto_accepted (env : surroundings) (sock : socket_obj) (data : bytes)
    (to : address) (w : world) :
  accepted env data to ->
  sendto env sock data to w
  = (mkWorld (clock w) (stop_sending w)
       (wire w ++ [mkDatagram (fileno sock) data to]), Ok tt).
Proof.
  destruct to as [host port]. unfold accepted, largest_payload. cbn [fst snd].
  intros (Hconv & Hres & Hport & Hsize & Hnet).
  apply host_converts_true in Hconv. destruct Hconv as [Hname Hnull].
  destruct (Hnet (clock w)) as [Hroute Hsend].
  unfold sendto. rewrite Hname, Hnull, Hres, Hroute, Hsend. cbn [negb].
  replace (fits_int port) with true
    by (symmetry; unfold fits_int; apply andb_true_iff;
        split; apply Z.leb_le; lia).
  replace ((0 <=? port) && (port <=? 65535))%Z with true
    by (symmetry; apply andb_true_iff; split; apply Z.leb_le; lia).
  replace (65535 <? Z.of_nat (length data))%Z with false
    by (symmetry; apply Z.ltb_ge; lia).
  replace (port =? 0)%Z with false by (symmetry; apply Z.eqb_neq; lia).
  replace (largest_payload <? Z.of_nat (length data))%Z with false
    by (symmetry; apply Z.ltb_ge; unfold largest_payload; lia).
  reflexivity.
Qed.

(** A [sendto] either puts the datagram on the wire or changes nothing
    and raises. *)
Lemma sendto_cases (env : surroundings) (sock : socket_obj) (data : bytes)
    (to : address) (w w' : world) (r : result unit) :
  sendto env sock data to w = (w', r) ->
  (w' = mkWorld (clock w) (stop_sending w)
          (wire w ++ [mkDatagram (fileno sock) data to])
   /\ r = Ok tt)
  \/ (w' = w /\ ~ accepted env data to /\ exists e, r = Raise e).
Proof.
  destruct to as [host port]. unfold sendto, accepted, largest_payload.
  cbn [fst snd].
  destruct (is_ascii host || idna env host) eqn:Hname; cbn [negb].
  2:{ intros [= <- <-]. right. repeat split; [|eexists; reflexivity].
      intros (H & _). apply host_converts_true in H. destruct H as [H _].
      congruence. }
  destruct (has_null host) eqn:Hnull.
  { intros [= <- <-]. right. repeat split; [|eexists; reflexivity].
    intros (H & _). apply host_converts_true in H. destruct H as [_ H].
    congruence. }
  destruct (fits_int port) eqn:Hint; cbn [negb].
  2:{ intros [= <- <-]. right. repeat split; [|eexists; reflexivity].
      intros (_ & _ & H & _). unfold fits_int in Hint.
      apply andb_false_iff in Hint.
      destruct Hint as [Hi|Hi]; apply Z.leb_gt in Hi; lia. }
  destruct (resolves env host) eqn:Hres; cbn [negb].
  2:{ intros [= <- <-]. right. repeat split; [|eexists; reflexivity].
      intros (_ & H & _). discriminate. }
  destruct ((0 <=? port) && (port <=? 65535))%Z eqn:Hport; cbn [negb].
  2:{ intros [= <- <-]. right. repeat split; [|eexists; reflexivity].
      intros (_ & _ & H & _). apply andb_false_iff in Hport.
      destruct Hport as [Hp|Hp]; apply Z.leb_gt in Hp; lia. }
  destruct (65535 <? Z.of_nat (length data))%Z eqn:Hbig.
  { intros [= <- <-]. right. repeat split; [|eexists; reflexivity].
    intros (_ & _ & _ & H & _). apply Z.ltb_lt in Hbig. lia. }
  destruct (port =? 0)%Z eqn:Hzero.
  { intros [= <- <-]. right. repeat split; [|eexists; reflexivity].
    intros (_ & _ & H & _). apply Z.eqb_eq in Hzero. lia. }
  destruct (route_error env (clock w)) as [e|] eqn:Hroute.
  { intros [= <- <-]. right. repeat split; [|eexists; reflexivity].
    intros (_ & _ & _ & _ & H). destruct (H (clock w)) as [H1 _].
    congruence. }
  destruct (65507 <? Z.of_nat (length data))%Z eqn:Hsize.
  { intros [= <- <-]. right. repeat split; [|eexists; reflexivity].
    intros (_ & _ & _ & H & _). apply Z.ltb_lt in Hsize. lia. }
  destruct (send_error env (clock w)) as [e|] eqn:Hsend.
  { intros [= <- <-]. right. repeat split; [|eexists; reflexivity].
    intros (_ & _ & _ & _ & H). destruct (H (clock w)) as [_ H2].
    congruence. }
  intros [= <- <-]. left. split; reflexivity.
Qed.

Lemma nanoseconds_fit (secs : Q) :
  (0 <= secs)%Q -> (secs <= longest_sleep)%Q ->
  (0 <= nanoseconds secs <= 9223372036854775807)%Z.
Proof.
  intros H0 Hmax. unfold longest_sleep in Hmax. unfold nanoseconds. cbv zeta.
  assert (Hx : (0 <= secs * 1000000000)%Q) by lra.
  assert (Hy : (secs * 1000000000 <= inject_Z 9223372036854775807)%Q).
  { unfold inject_Z. lra. }
  replace (Qle_bool 0 (secs * 1000000000)) with true
    by (symmetry; now apply Qle_bool_iff).
  split.
  - change 0%Z with (Qceiling (inject_Z 0)). now apply Qceiling_resp_le.
  - rewrite <- (Qceiling_Z 9223372036854775807). now apply Qceiling_resp_le.
Qed.

Lemma time_sleep_fits (secs : Q) (w : world) :
  (0 <= secs)%Q -> (secs <= longest_sleep)%Q ->
  time_sleep secs w = (time_passes secs w, Ok tt).
Proof.
  intros H0 Hmax. unfold time_sleep. cbv zeta.
  pose proof (nanoseconds_fit H0 Hmax) as Hns.
  replace ((-9223372036854775808 <=? nanoseconds secs)
           && (nanoseconds secs <=? 9223372036854775807))%Z with true
    by (symmetry; apply andb_true_iff; split; apply Z.leb_le; lia).
  cbn [negb]. apply Qle_bool_iff in H0. now rewrite H0.
Qed.

(** A [sleep] either lets its length pass or changes nothing and
    raises. *)
Lemma time_sleep_cases (secs : Q) (w w' : world) (r : result unit) :
  time_sleep secs w = (w', r) ->
  ((0 <= secs)%Q /\ w' = time_passes secs w /\ r = Ok tt)
  \/ (w' = w
      /\ ~ ((0 <= secs)%Q /\ (secs <= longest_sleep)%Q)
      /\ exists e, r = Raise e
                   /\ (exn_class e = ValueError
                       \/ exn_class e = OverflowError)).
Proof.
  unfold time_sleep. cbv zeta.
  destruct ((-9223372036854775808 <=? nanoseconds secs)
            && (nanoseconds secs <=? 9223372036854775807))%Z eqn:Hns;
    cbn [negb].
  - destruct (Qle_bool 0 secs) eqn:H0.
    + intros [= <- <-]. left. apply Qle_bool_iff in H0. repeat split.
      assumption.
    + intros [= <- <-]. right. repeat split.
      * intros [H _]. apply Qle_bool_iff in H. congruence.
      * eexists. split; [reflexivity | now left].
  - intros [= <- <-]. right. repeat split.
    + intros [H0 Hmax]. pose proof (nanoseconds_fit H0 Hmax) as Hfit.
      apply andb_false_iff in Hns.
      destruct Hns as [Hn|Hn]; apply Z.leb_gt in Hn; lia.
    + eexists. split; [reflexivity | now right].
Qed.

(** A negative length that is not absurdly long makes [sleep] raise
    [ValueError]. *)
Lemma time_sleep_negative (secs : Q) (w : world) :
  (secs < 0)%Q -> (- longest_sleep <= secs)%Q ->
  time_sleep secs w
  = (w, Raise (mkExn ValueError (lit "sleep length must be non-negative"))).
Proof.
  intros Hneg Hmin. unfold longest_sleep in Hmin.
  unfold time_sleep, nanoseconds. cbv zeta.
  assert (Hx : (secs * 1000000000 < 0)%Q) by lra.
  assert (Hy : (inject_Z (-9223372036854775807) <= secs * 1000000000)%Q).
  { unfold inject_Z. lra. }
  replace (Qle_bool 0 (secs * 1000000000)) with false.
  2:{ symmetry. destruct (Qle_bool 0 (secs * 1000000000)) eqn:E;
        [|reflexivity].
      apply Qle_bool_iff in E. lra. }
  assert (Hlow : (-9223372036854775807 <= Qfloor (secs * 1000000000))%Z).
  { rewrite <- (Qfloor_Z (-9223372036854775807)). now apply Qfloor_resp_le. }
  assert (Hup : (Qfloor (secs * 1000000000) <= 0)%Z).
  { change 0%Z with (Qfloor (inject_Z 0)). apply Qfloor_resp_le.
    unfold inject_Z. lra. }
  replace ((-9223372036854775808 <=? Qfloor (secs * 1000000000))
           && (Qfloor (secs * 1000000000) <=? 9223372036854775807))%Z
    with true
    by (symmetry; apply andb_true_iff; split; apply Z.leb_le; lia).
  cbn [negb].
  replace (Qle_bool 0 secs) with false; [reflexivity|].
  symmetry. destruct (Qle_bool 0 secs) eqn:E; [|reflexivity].
  apply Qle_bool_iff in E. lra.
Qed.

Section Sender_runs.

Variable env : surroundings.
Variables (send_sock : socket_obj) (multicast_group : str) (port : Z).
Variables (message : str) (interval duration : Q) (encoded_message : bytes).

Hypothesis Hinterval : (0 < interval)%Q.
Hypothesis Hencode : Utf8.encode message = Some encoded_message.
Hypothesis Haccepted : accepted env encoded_message (multicast_group, port).
Hypothesis Hfits : (interval <= longest_sleep)%Q.
Hypothesis Hquiet : forall k, stop_request env k = false.
Hypothesis Hlag : forall k, (0 <= lag env k)%Q.

Let sent : datagram :=
  mkDatagram (fileno send_sock) encoded_message (multicast_group, port).

Let loop := send_loop_from env send_sock multicast_group port message
              interval duration.

Lemma lag_sum_nonneg (k : nat) : (0 <= lag_sum env k)%Q.
Proof.
  induction k as [|k IH]; simpl.
  - lra.
  - specialize (Hlag k). lra.
Qed.

Lemma lag_sum_mono (j k : nat) :
  j <= k -> (lag_sum env j <= lag_sum env k)%Q.
Proof.
  intros Hjk. induction Hjk as [|k Hjk IH].
  - lra.
  - simpl. specialize (Hlag k). lra.
Qed.

(** An iteration that finds the deadline passed ends the loop. *)
Lemma iteration_breaks (fuel k : nat) (start_time : Q) (w : world) :
  stop_sending w = false ->
  (duration < clock w + lag env k - start_time)%Q ->
  loop (S fuel) k start_time w = Some (time_passes (lag env k) w, Ok tt).
Proof.
  intros Hflag Hlate. unfold loop. rewrite send_loop_from_S, Hquiet.
  cbv zeta. rewrite Hflag. cbn [time_passes clock].
  apply Qgt_bool_true in Hlate. rewrite Hlate. reflexivity.
Qed.

(** An iteration within the deadline sends one datagram, sleeps, and
    goes on with the next iteration. *)
Lemma iteration_sends (fuel k : nat) (start_time : Q) (w : world) :
  stop_sending w = false ->
  (clock w + lag env k - start_time <= duration)%Q ->
  loop (S fuel) k start_time w
  = loop fuel (S k) start_time
      (mkWorld (clock w + lag env k + interval) false (wire w ++ [sent])).
Proof.
  intros Hflag Hintime. unfold loop. rewrite send_loop_from_S, Hquiet.
  cbv zeta. rewrite Hflag. cbn [time_passes clock].
  apply Qgt_bool_false in Hintime. rewrite Hintime.
  unfold str_encode. rewrite Hencode.
  rewrite (sendto_accepted send_sock _ Haccepted).
  rewrite time_sleep_fits by (assumption || lra).
  unfold time_passes. cbn [clock stop_sending wire]. rewrite Hflag.
  reflexivity.
Qed.

(** From a state in which [k] sleeps have been taken, the loop returns
    within [r + 1] iterations as soon as [k + r] sleeps exceed the
    duration. *)
Lemma loop_returns (start_time : Q) :
  forall (r k : nat) (w : world),
    stop_sending w = false ->
    (clock w == start_time + sched interval k + lag_sum env k)%Q ->
    (duration < sched interval (k + r))%Q ->
    exists (m : nat) (w' : world),
      loop (S r) k start_time w = Some (w', Ok tt)
      /\ wire w' = wire w ++ repeat sent m
      /\ (duration < clock w' - start_time)%Q
      /\ (forall n,
             (sched interval n <= duration)%Q ->
             (lag_sum env n <= interval)%Q ->
             n <= k + m).
Proof.
  induction r as [|r IH]; intros k w Hflag Hclock Hdue.
  - exists 0, (time_passes (lag env k) w).
    pose proof (lag_sum_nonneg k) as Hk. pose proof (Hlag k) as Hl.
    rewrite Nat.add_0_r in Hdue.
    split; [apply iteration_breaks; [assumption | lra]|].
    split; [simpl; now rewrite app_nil_r|].
    split; [cbn [time_passes clock]; lra|].
    intros n Hn _. rewrite Nat.add_0_r.
    destruct (le_gt_dec n k) as [Hle|Hgt]; [assumption|].
    pose proof (@sched_mono interval k n (Qlt_le_weak _ _ Hinterval)
                  (Nat.lt_le_incl _ _ Hgt)).
    lra.
  - destruct (Qlt_le_dec duration (clock w + lag env k - start_time))
      as [Hlate|Hintime].
    + exists 0, (time_passes (lag env k) w).
      split; [now apply iteration_breaks|].
      split; [simpl; now rewrite app_nil_r|].
      split; [cbn [time_passes clock]; lra|].
      intros n Hn Hbound. rewrite Nat.add_0_r.
      destruct (le_gt_dec n k) as [Hle|Hgt]; [assumption|].
      exfalso.
      pose proof (@sched_mono interval (S k) n (Qlt_le_weak _ _ Hinterval) Hgt)
        as Hs.
      pose proof (@lag_sum_mono (S k) n Hgt) as Hm.
      rewrite sched_S in Hs. simpl in Hm. lra.
    + rewrite iteration_sends by assumption.
      destruct (IH (S k)
                  (mkWorld (clock w + lag env k + interval) false
                     (wire w ++ [sent])))
        as [m [w' [Hrun [Hwire [Hclock' Hcount]]]]].
      * reflexivity.
      * cbn [clock]. rewrite sched_S. simpl. lra.
      * now rewrite <- Nat.add_succ_comm in Hdue.
      * exists (S m), w'.
        split; [exact Hrun|].
        split; [rewrite Hwire; cbn [wire]; rewrite <- app_assoc;
                reflexivity|].
        split; [assumption|].
        intros n Hn Hbound. specialize (Hcount n Hn Hbound). lia.
Qed.

End Sender_runs.

Lemma floor_nonneg (interval duration : Q) :
  (0 < interval)%Q -> (0 <= duration)%Q ->
  (0 <= Qfloor (duration / interval))%Z.
Proof.
  intros Hi Hd. change 0%Z with (Qfloor 0). apply Qfloor_resp_le.
  apply Qle_shift_div_l; [assumption | lra].
Qed.

Lemma div_mult_cancel (interval duration : Q) :
  (0 < interval)%Q -> (duration / interval * interval == duration)%Q.
Proof.
  intros Hi. rewrite Qmult_comm. apply Qmult_div_r. lra.
Qed.

(** [floor(duration / interval)] sleeps fit into the duration, one more
    does not. *)
Lemma floor_sched_le (interval duration : Q) :
  (0 < interval)%Q -> (0 <= duration)%Q ->
  (sched interval (Z.to_nat (Qfloor (duration / interval))) <= duration)%Q.
Proof.
  intros Hi Hd. unfold sched.
  rewrite Z2Nat.id by now apply floor_nonneg.
  rewrite <- (div_mult_cancel duration Hi) at 2.
  apply Qmult_le_compat_r; [apply Qfloor_le | lra].
Qed.

Lemma floor_sched_gt (interval duration : Q) :
  (0 < interval)%Q -> (0 <= duration)%Q ->
  (duration
   < sched interval (Z.to_nat (Qfloor (duration / interval)) + 1))%Q.
Proof.
  intros Hi Hd. unfold sched.
  rewrite Nat2Z.inj_add, Z2Nat.id by now apply floor_nonneg.
  rewrite <- (div_mult_cancel duration Hi) at 1.
  apply Qmult_lt_compat_r; [assumption | apply Qlt_floor].
Qed.

(** C1, as stated, fails: with an interval of 1 s and a duration of 5 s,
    on a machine where every iteration takes 0.3 s more than its sleep,
    the keyword returns after sending 4 datagrams, fewer than
    [floor(5 / 1) = 5], although the stop event is never set. *)
Lemma Send_Multicast_Message_sluggish_sends_four :
  exists w',
    Send_Multicast_Message sluggish send_socket default_group 5999
      (lit "hello") 1 5 10 quiet_world = Some w'
    /\ wire w' = repeat hello 4
    /\ Z.to_nat (Qfloor (5 / 1)) = 5
    /\ stop_sending w' = false.
Proof. eexists. repeat split. Qed.

(** C1 (amended).  For a call with a positive interval that [sleep] can
    take (at most [longest_sleep], about 292 years), a duration of at
    least two intervals, an encodable message and a destination and
    payload that [sendto] accepts (the host name converts and resolves,
    the port lies in 1..65535, the encoded message has at most 65507
    octets, and the system refuses no datagram), during which the stop
    event is never set: the keyword returns, all datagrams it sent are
    copies of the encoded message to that destination, and it returns
    only after more than [duration] seconds.  If moreover the delays that
    the surroundings add over the first [floor(duration / interval)]
    iterations sum to at most one interval, at least
    [floor(duration / interval)] datagrams are sent. *)
Theorem Send_Multicast_Message_runs_for_duration :
  forall (env : surroundings) (send_sock : socket_obj)
         (multicast_group : str) (port : Z) (message : str)
         (interval duration : Q) (encoded_message : bytes) (w : world),
    (0 < interval)%Q ->
    (interval <= longest_sleep)%Q ->
    (2 * interval <= duration)%Q ->
    Utf8.encode message = Some encoded_message ->
    accepted env encoded_message (multicast_group, port) ->
    stop_sending w = false ->
    (forall k, stop_request env k = false) ->
    (forall k, (0 <= lag env k)%Q) ->
    let n := Z.to_nat (Qfloor (duration / interval)) in
    exists (m : nat) (w' : world),
      (forall fuel, n + 2 <= fuel ->
         Send_Multicast_Message env send_sock multicast_group port message
           interval duration fuel w = Some w')
      /\ wire w'
         = wire w
           ++ repeat (mkDatagram (fileno send_sock) encoded_message
                        (multicast_group, port)) m
      /\ (duration < clock w' - clock w)%Q
      /\ ((lag_sum env n <= interval)%Q -> n <= m).
Proof.
  intros env send_sock multicast_group port message interval duration
    encoded_message w Hi Hfits Hd Henc Hacc Hflag Hquiet Hlag n.
  assert (Hd0 : (0 <= duration)%Q) by lra.
  destruct (@loop_returns env send_sock multicast_group port message interval
              duration encoded_message Hi Henc Hacc Hfits Hquiet Hlag
              (clock w) (n + 1) 0 w Hflag)
    as [m [w' [Hrun [Hwire [Hclock Hcount]]]]].
  - rewrite sched_0. simpl. lra.
  - apply floor_sched_gt; assumption.
  - exists m, w'. split; [|split; [assumption | split; [assumption|]]].
    + intros fuel Hfuel. unfold Send_Multicast_Message, send_loop.
      rewrite (send_loop_from_more_fuel _ _ _ _ _ _ _ _ _ _ Hrun)
        by lia.
      reflexivity.
    + intros Hbound. apply (Hcount n); [|assumption].
      apply floor_sched_le; assumption.
Qed.

Lemma Send_Multicast_Message_runs_for_duration_witness :
  exists (m : nat) (w' : world),
    (forall fuel, Z.to_nat (Qfloor (5 / 1)) + 2 <= fuel ->
       Send_Multicast_Message brisk send_socket default_group 5999
         (lit "hello") 1 5 fuel quiet_world = Some w')
    /\ wire w'
       = wire quiet_world
         ++ repeat (mkDatagram (fileno send_socket) (ascii_bytes "hello")
                      (default_group, 5999%Z)) m
    /\ (5 < clock w' - clock quiet_world)%Q
    /\ ((lag_sum brisk (Z.to_nat (Qfloor (5 / 1))) <= 1)%Q ->
        Z.to_nat (Qfloor (5 / 1)) <= m).
Proof.
  apply (@Send_Multicast_Message_runs_for_duration
           brisk send_socket default_group 5999 (lit "hello") 1 5
           (ascii_bytes "hello") quiet_world).
  - reflexivity.
  - discriminate.
  - discriminate.
  - reflexivity.
  - unfold accepted, largest_payload. cbn [fst snd].
    repeat split; try reflexivity; try lia; discriminate.
  - reflexivity.
  - intros k. reflexivity.
  - intros k. discriminate.
Defined.

(** Calling the Stop Sending keyword again changes nothing, and nothing
    in the library clears the event. *)
Lemma Stop_Sending_Messages_idempotent (w : world) :
  Stop_Sending_Messages (Stop_Sending_Messages w) = Stop_Sending_Messages w.
Proof. reflexivity. Qed.

(** C2.  When the stop event is already set as the keyword is called,
    the keyword returns at once and nothing is sent.  More generally, in
    every iteration the event is tested first: if it is found set (it
    was set before, or a stop request arrived just before the test), the
    loop ends there, whatever the clock and the duration are, and no
    datagram is sent from then on. *)
Theorem Send_Multicast_Message_stop_sends_nothing :
  forall (env : surroundings) (send_sock : socket_obj)
         (multicast_group : str) (port : Z) (message : str)
         (interval duration : Q) (fuel : nat),
    (forall w,
        stop_sending w = true ->
        exists w',
          Send_Multicast_Message env send_sock multicast_group port message
            interval duration (S fuel) w = Some w'
          /\ wire w' = wire w /\ clock w' = clock w
          /\ stop_sending w' = true)
    /\ (forall k start_time w,
          stop_sending w = true \/ stop_request env k = true ->
          exists w',
            send_loop_from env send_sock multicast_group port message
              interval duration (S fuel) k start_time w = Some (w', Ok tt)
            /\ wire w' = wire w /\ clock w' = clock w
            /\ stop_sending w' = true).
Proof.
  intros env send_sock multicast_group port message interval duration fuel.
  assert (Hiter : forall k start_time w,
             stop_sending w = true \/ stop_request env k = true ->
             exists w',
               send_loop_from env send_sock multicast_group port message
                 interval duration (S fuel) k start_time w = Some (w', Ok tt)
               /\ wire w' = wire w /\ clock w' = clock w
               /\ stop_sending w' = true).
  { intros k start_time w Hset. rewrite send_loop_from_S. cbv zeta.
    destruct (stop_request env k) eqn:Hreq.
    - exists (event_set w). cbn [event_set stop_sending].
      repeat split.
    - destruct Hset as [Hset|Hset]; [|discriminate].
      exists w. rewrite Hset. repeat split; assumption. }
  split; [|exact Hiter].
  intros w Hset. unfold Send_Multicast_Message, send_loop.
  destruct (Hiter 0 (clock w) w (or_introl Hset)) as [w' [Hrun Hrest]].
  rewrite Hrun. exists w'. split; [reflexivity | assumption].
Qed.

Lemma Send_Multicast_Message_stop_sends_nothing_witness :
  exists w',
    Send_Multicast_Message punctual send_socket default_group 5999
      (lit "hello") 1 5 1 (Stop_Sending_Messages quiet_world) = Some w'
    /\ wire w' = wire (Stop_Sending_Messages quiet_world)
    /\ clock w' = clock (Stop_Sending_Messages quiet_world)
    /\ stop_sending w' = true.
Proof.
  apply (proj1 (Send_Multicast_Message_stop_sends_nothing
                  punctual send_socket default_group 5999 (lit "hello")
                  1 5 0)).
  reflexivity.
Defined.

(** * Further properties of the keywords *)

(** ** Send Multicast Message: every run *)

(** What one iteration of the send loop can do. *)
Lemma send_loop_from_step (env : surroundings) (send_sock : socket_obj)
    (multicast_group : str) (port : Z) (message : str)
    (interval duration : Q) (fuel k : nat) (start_time : Q)
    (w w' : world) (r : result unit) :
  send_loop_from env send_sock multicast_group port message interval duration
    (S fuel) k start_time w = Some (w', r) ->
  (* the stop event was found set *)
  (wire w' = wire w /\ stop_sending w' = true /\ r = Ok tt
   /\ (stop_request env k = true \/ stop_sending w = true))
  (* the deadline was found passed *)
  \/ (wire w' = wire w /\ stop_sending w = false
      /\ (duration < clock w + lag env k - start_time)%Q /\ r = Ok tt
      /\ clock w' = (clock w + lag env k)%Q)
  (* encoding or sending failed: the thread ends *)
  \/ (wire w' = wire w /\ stop_sending w = false
      /\ (Utf8.encode message = None
          \/ exists encoded_message,
               Utf8.encode message = Some encoded_message
               /\ ~ accepted env encoded_message (multicast_group, port))
      /\ exists e, r = Raise e)
  (* one datagram was sent *)
  \/ (exists encoded_message,
         Utf8.encode message = Some encoded_message
         /\ stop_sending w = false /\ stop_request env k = false
         /\ (clock w + lag env k - start_time <= duration)%Q
         /\ let sent := mkDatagram (fileno send_sock) encoded_message
                          (multicast_group, port) in
            (* and the sleep failed: the thread ends *)
            (~ ((0 <= interval)%Q /\ (interval <= longest_sleep)%Q)
             /\ wire w' = wire w ++ [sent]
             /\ exists e, r = Raise e
                          /\ (exn_class e = ValueError
                              \/ exn_class e = OverflowError))
            (* or the loop goes on *)
            \/ ((0 <= interval)%Q
                /\ send_loop_from env send_sock multicast_group port message
                     interval duration fuel (S k) start_time
                     (mkWorld (clock w + lag env k + interval) false
                        (wire w ++ [sent]))
                   = Some (w', r))).
Proof.
  rewrite send_loop_from_S. cbv zeta.
  destruct (stop_request env k) eqn:Hreq.
  { cbn [event_set stop_sending]. intros H. inversion H; subst.
    left. repeat split. now left. }
  destruct (stop_sending w) eqn:Hflag.
  { intros H. inversion H; subst. left. repeat split; [assumption|].
    now right. }
  cbn [time_passes clock].
  destruct (Qgt_bool (clock w + lag env k - start_time) duration) eqn:Hlate.
  { intros H. inversion H; subst. right. left. cbn [wire clock].
    apply Qgt_bool_true in Hlate. repeat split; assumption. }
  apply Qgt_bool_false in Hlate.
  unfold str_encode.
  destruct (Utf8.encode message) as [encoded_message|] eqn:Henc.
  2:{ intros H. inversion H; subst. right. right. left. cbn [wire].
      repeat split; [left; reflexivity | eexists; reflexivity]. }
  match goal with
  | |- context [sendto ?e ?s ?d ?t ?v] =>
      destruct (sendto e s d t v) as [w1 r1] eqn:Hsend
  end.
  apply sendto_cases in Hsend.
  destruct Hsend as [[-> ->]|[-> [Hnot [e ->]]]].
  2:{ intros H. inversion H; subst. right. right. left. cbn [wire].
      repeat split; [|eexists; reflexivity].
      right. exists encoded_message. split; [reflexivity | assumption]. }
  unfold time_passes. cbn [clock stop_sending wire]. rewrite Hflag.
  match goal with
  | |- context [time_sleep ?i ?v] =>
      destruct (time_sleep i v) as [w2 r2] eqn:Hsleep
  end.
  apply time_sleep_cases in Hsleep.
  destruct Hsleep as [[Hpos [-> ->]]|[-> [Hbad [e [-> Hclass]]]]].
  - unfold time_passes. cbn [clock stop_sending wire].
    intros H. right. right. right. exists encoded_message.
    repeat split; try assumption. right. split; assumption.
  - intros H. inversion H; subst. right. right. right.
    exists encoded_message. repeat split; try assumption.
    left. cbn [wire]. repeat split; [assumption|].
    eexists. split; [reflexivity | assumption].
Qed.

Lemma send_loop_from_appends (env : surroundings) (send_sock : socket_obj)
    (multicast_group : str) (port : Z) (message : str)
    (interval duration : Q) (start_time : Q) :
  forall (fuel k : nat) (w w' : world) (r : result unit),
    send_loop_from env send_sock multicast_group port message interval
      duration fuel k start_time w = Some (w', r) ->
    exists sent_now,
      wire w' = wire w ++ sent_now
      /\ length sent_now <= fuel
      /\ Forall (fun d => via d = fileno send_sock
                          /\ dest d = (multicast_group, port)
                          /\ Utf8.encode message = Some (payload d))
           sent_now.
Proof.
  induction fuel as [|fuel IH]; intros k w w' r Hrun; [discriminate|].
  apply send_loop_from_step in Hrun.
  destruct Hrun as [[Hw _]|[[Hw _]|[[Hw _]|Hsent]]];
    try (exists []; rewrite app_nil_r; repeat split;
         [assumption | simpl; lia | constructor]).
  destruct Hsent as [enc [Henc [_ [_ [_ Hnext]]]]]. cbv zeta in Hnext.
  destruct Hnext as [[_ [Hw _]]|[_ Hrun]].
  - eexists. split; [eassumption|]. split; [simpl; lia|].
    constructor; [|constructor]. repeat split. assumption.
  - destruct (IH _ _ _ _ Hrun) as [rest [Hw [Hlen Hall]]].
    cbn [wire] in Hw. rewrite <- app_assoc in Hw.
    eexists. split; [eassumption|]. split; [simpl; lia|].
    constructor; [|assumption]. repeat split. assumption.
Qed.

(** X14.  Whatever the surroundings do, and whether or not the thread ends
    with an exception, a call only appends to what is on the wire, and
    everything it appends is the UTF-8 encoding of [message] sent through
    [send_sock] to [(multicast_group, port)]; at most one datagram is sent
    per iteration. *)
Theorem Send_Multicast_Message_only_sends_message :
  forall (env : surroundings) (send_sock : socket_obj)
         (multicast_group : str) (port : Z) (message : str)
         (interval duration : Q) (fuel : nat) (w w' : world),
    Send_Multicast_Message env send_sock multicast_group port message
      interval duration fuel w = Some w' ->
    exists sent_now,
      wire w' = wire w ++ sent_now
      /\ length sent_now <= fuel
      /\ Forall (fun d => via d = fileno send_sock
                          /\ dest d = (multicast_group, port)
                          /\ Utf8.encode message = Some (payload d))
           sent_now.
Proof.
  intros env send_sock multicast_group port message interval duration fuel
    w w'. unfold Send_Multicast_Message, send_loop.
  destruct (send_loop_from env send_sock multicast_group port message
              interval duration fuel 0 (clock w) w) as [[w1 r]|] eqn:Hrun;
    [|discriminate].
  intros H. inversion H; subst w1.
  eapply send_loop_from_appends. eassumption.
Qed.

Lemma Send_Multicast_Message_only_sends_message_witness :
  exists sent_now,
    wire (mkWorld (100550000 # 100000)%Q false (repeat hello 4))
    = wire quiet_world ++ sent_now
    /\ length sent_now <= 10
    /\ Forall (fun d => via d = fileno send_socket
                        /\ dest d = (default_group, 5999%Z)
                        /\ Utf8.encode (lit "hello") = Some (payload d))
         sent_now.
Proof.
  apply (@Send_Multicast_Message_only_sends_message
           sluggish send_socket default_group 5999 (lit "hello") 1 5 10
           quiet_world).
  vm_compute. reflexivity.
Defined.

(** ** Send Multicast Message: how many datagrams *)

Lemma sched_nonneg (interval : Q) (k : nat) :
  (0 <= interval)%Q -> (0 <= sched interval k)%Q.
Proof.
  intros Hi. rewrite <- (sched_0 interval).
  apply sched_mono; [assumption | lia].
Qed.

Lemma sched_le_floor (interval duration : Q) (j : nat) :
  (0 < interval)%Q ->
  (sched interval j <= duration)%Q ->
  j <= Z.to_nat (Qfloor (duration / interval)).
Proof.
  intros Hi Hj. unfold sched in Hj.
  assert (H : (inject_Z (Z.of_nat j) <= duration / interval)%Q)
    by (apply Qle_shift_div_l; assumption).
  apply Qfloor_resp_le in H. rewrite Qfloor_Z in H. lia.
Qed.

Section Sender_bounds.

Variable env : surroundings.
Variables (send_sock : socket_obj) (multicast_group : str) (port : Z).
Variables (message : str) (interval duration : Q) (start_time : Q).

Hypothesis Hlag : forall k, (0 <= lag env k)%Q.

(** The last datagram of a run was sent by an iteration that started
    within the deadline. *)
Lemma send_loop_from_deadline :
  forall (fuel k : nat) (w w' : world) (r : result unit),
    send_loop_from env send_sock multicast_group port message interval
      duration fuel k start_time w = Some (w', r) ->
    (sched interval k <= clock w - start_time)%Q ->
    exists sent_now,
      wire w' = wire w ++ sent_now
      /\ (sent_now = []
          \/ (sched interval (k + length sent_now - 1) <= duration)%Q).
Proof.
  induction fuel as [|fuel IH]; intros k w w' r Hrun Hclock; [discriminate|].
  apply send_loop_from_step in Hrun.
  destruct Hrun as [[Hw _]|[[Hw _]|[[Hw _]|Hsent]]];
    try (exists []; rewrite app_nil_r; split; [assumption | now left]).
  destruct Hsent as [enc [_ [_ [_ [Hintime Hnext]]]]].
  pose proof (Hlag k) as Hk.
  cbv zeta in Hnext. destruct Hnext as [[_ [Hw _]]|[_ Hrun]].
  { eexists. split; [eassumption|]. right. cbn [length].
    replace (k + 1 - 1) with k by lia. lra. }
  destruct (IH _ _ _ _ Hrun) as [rest [Hw Hlast]].
  { cbn [clock]. rewrite sched_S. lra. }
  cbn [wire] in Hw. rewrite <- app_assoc in Hw.
  eexists. split; [eassumption|]. right. cbn [app length].
  destruct Hlast as [->|Hlast].
  - cbn [length]. replace (k + 1 - 1) with k by lia. lra.
  - destruct rest as [|d rest]; [cbn [length] in *|].
    + replace (k + 1 - 1) with k by lia. lra.
    + cbn [length] in *.
      replace (k + S (S (length rest)) - 1) with (S k + S (length rest) - 1)
        by lia.
      assumption.
Qed.

End Sender_bounds.

(** X15.  With a positive interval and a clock that does not run
    backwards, the duration bounds the number of datagrams from above in
    every run, stopped or not: none is sent when the duration is
    negative, and otherwise at most [floor(duration / interval) + 1]. *)
Theorem Send_Multicast_Message_sends_at_most :
  forall (env : surroundings) (send_sock : socket_obj)
         (multicast_group : str) (port : Z) (message : str)
         (interval duration : Q) (fuel : nat) (w w' : world),
    (0 < interval)%Q ->
    (forall k, (0 <= lag env k)%Q) ->
    Send_Multicast_Message env send_sock multicast_group port message
      interval duration fuel w = Some w' ->
    ((duration < 0)%Q -> wire w' = wire w)
    /\ ((0 <= duration)%Q ->
        length (wire w')
        <= length (wire w) + Z.to_nat (Qfloor (duration / interval)) + 1).
Proof.
  intros env send_sock multicast_group port message interval duration fuel
    w w' Hi Hlag. unfold Send_Multicast_Message, send_loop.
  destruct (send_loop_from env send_sock multicast_group port message
              interval duration fuel 0 (clock w) w) as [[w1 r]|] eqn:Hrun;
    [|discriminate].
  intros H. inversion H; subst w1.
  destruct (@send_loop_from_deadline env send_sock multicast_group port
              message interval duration (clock w) Hlag _ _ _ _ _ Hrun)
    as [sent_now [Hw Hlast]].
  { rewrite sched_0. lra. }
  split.
  - intros Hneg. destruct Hlast as [->|Hlast]; [now rewrite app_nil_r in Hw|].
    pose proof (@sched_nonneg interval (0 + length sent_now - 1)
                  (Qlt_le_weak _ _ Hi)).
    lra.
  - intros Hpos. rewrite Hw, length_app.
    destruct Hlast as [->|Hlast]; [simpl; lia|].
    apply sched_le_floor in Hlast; [|assumption]. lia.
Qed.

Lemma Send_Multicast_Message_sends_at_most_witness :
  ((5 < 0)%Q ->
   wire (mkWorld (100550000 # 100000)%Q false (repeat hello 4))
   = wire quiet_world)
  /\ ((0 <= 5)%Q ->
      length (wire (mkWorld (100550000 # 100000)%Q false (repeat hello 4)))
      <= length (wire quiet_world) + Z.to_nat (Qfloor (5 / 1)) + 1).
Proof.
  apply (@Send_Multicast_Message_sends_at_most
           sluggish send_socket default_group 5999 (lit "hello") 1 5 10
           quiet_world).
  - reflexivity.
  - intros k. discriminate.
  - vm_compute. reflexivity.
Defined.

Section Sender_exact.

Variable env : surroundings.
Variables (send_sock : socket_obj) (multicast_group : str) (port : Z).
Variables (message : str) (interval duration : Q) (encoded_message : bytes).
Variable start_time : Q.

Hypothesis Hinterval : (0 < interval)%Q.
Hypothesis Hencode : Utf8.encode message = Some encoded_message.
Hypothesis Haccepted : accepted env encoded_message (multicast_group, port).
Hypothesis Hfits : (interval <= longest_sleep)%Q.
Hypothesis Hquiet : forall k, stop_request env k = false.
Hypothesis Hlag : forall k, (0 <= lag env k)%Q.

Let sent : datagram :=
  mkDatagram (fileno send_sock) encoded_message (multicast_group, port).

Lemma reading_mono (j k : nat) :
  j <= k -> (reading env interval j <= reading env interval k)%Q.
Proof.
  intros Hjk. unfold reading.
  pose proof (@sched_mono interval j k (Qlt_le_weak _ _ Hinterval) Hjk).
  pose proof (@lag_sum_mono env Hlag (S j) (S k) (le_n_S _ _ Hjk)).
  lra.
Qed.

(** In a call whose sends and sleeps succeed and which is not stopped,
    iteration [j] sends its
    datagram exactly when it reads the clock within the deadline. *)
Lemma send_loop_from_in_time :
  forall (fuel k : nat) (w w' : world) (r : result unit),
    send_loop_from env send_sock multicast_group port message interval
      duration fuel k start_time w = Some (w', r) ->
    stop_sending w = false ->
    (clock w == start_time + sched interval k + lag_sum env k)%Q ->
    exists m,
      wire w' = wire w ++ repeat sent m
      /\ r = Ok tt
      /\ (forall j, (reading env interval j <= duration)%Q -> j < k + m)
      /\ (m = 0 \/ (reading env interval (k + m - 1) <= duration)%Q).
Proof.
  induction fuel as [|fuel IH]; intros k w w' r Hrun Hflag Hclock;
    [discriminate|].
  apply send_loop_from_step in Hrun.
  destruct Hrun as [[_ [_ [_ Hwhy]]]|[Hbreak|[[_ [_ [Hwhy _]]]|Hsent]]].
  - destruct Hwhy as [Hwhy|Hwhy]; [rewrite Hquiet in Hwhy|]; congruence.
  - destruct Hbreak as [Hw [_ [Hlate [Hr _]]]].
    exists 0. cbn [repeat]. rewrite app_nil_r.
    split; [assumption|]. split; [assumption|]. split; [|now left].
    intros j Hj. rewrite Nat.add_0_r.
    destruct (le_gt_dec k j) as [Hkj|Hkj]; [exfalso | assumption].
    pose proof (reading_mono Hkj) as Hm.
    unfold reading in Hm at 1. cbn [lag_sum] in Hm. lra.
  - destruct Hwhy as [Hwhy|[enc [Henc Hnot]]]; [congruence|].
    assert (enc = encoded_message) by congruence. subst enc. contradiction.
  - destruct Hsent as [enc [Henc [_ [_ [Hintime Hnext]]]]].
    cbv zeta in Hnext. destruct Hnext as [[Hbad _]|[_ Hrun]].
    { exfalso. apply Hbad. split; [lra | assumption]. }
    assert (enc = encoded_message) by congruence. subst enc.
    destruct (IH _ _ _ _ Hrun eq_refl) as [m [Hw [Hr [Hlow Hup]]]].
    { cbn [clock lag_sum]. rewrite sched_S. cbn [lag_sum]. lra. }
    exists (S m). cbn [wire] in Hw. rewrite <- app_assoc in Hw.
    split; [exact Hw|]. split; [assumption|]. split.
    + intros j Hj. specialize (Hlow j Hj). lia.
    + right. destruct Hup as [->|Hup].
      * replace (k + 1 - 1) with k by lia.
        unfold reading. cbn [lag_sum]. lra.
      * destruct m as [|m].
        -- replace (k + 1 - 1) with k by lia.
           unfold reading. cbn [lag_sum]. lra.
        -- replace (k + S (S m) - 1) with (S k + S m - 1) by lia.
           assumption.
Qed.

End Sender_exact.

(** X16.  In a call that is not stopped, with a positive interval that
    [sleep] can take, an encodable message and a destination and payload
    that [sendto] accepts (the host name converts and resolves, the port
    lies in 1..65535, the encoded message has at most 65507 octets, and
    the system refuses no datagram), the datagrams sent are exactly those
    of the iterations that read the clock within the deadline: datagram
    number [j] (counting from 0) is sent if and only if [j] sleeps plus
    the delays up to iteration [j] do not exceed [duration]. *)
Theorem Send_Multicast_Message_sends_while_in_time :
  forall (env : surroundings) (send_sock : socket_obj)
         (multicast_group : str) (port : Z) (message : str)
         (interval duration : Q) (encoded_message : bytes) (w : world),
    (0 < interval)%Q ->
    (interval <= longest_sleep)%Q ->
    (0 <= duration)%Q ->
    Utf8.encode message = Some encoded_message ->
    accepted env encoded_message (multicast_group, port) ->
    stop_sending w = false ->
    (forall k, stop_request env k = false) ->
    (forall k, (0 <= lag env k)%Q) ->
    exists (m : nat) (w' : world),
      (forall fuel,
          Z.to_nat (Qfloor (duration / interval)) + 2 <= fuel ->
          Send_Multicast_Message env send_sock multicast_group port message
            interval duration fuel w = Some w')
      /\ wire w'
         = wire w
           ++ repeat (mkDatagram (fileno send_sock) encoded_message
                        (multicast_group, port)) m
      /\ (forall j, j < m <-> (reading env interval j <= duration)%Q).
Proof.
  intros env send_sock multicast_group port message interval duration
    encoded_message w Hi Hfits Hd Henc Hacc Hflag Hquiet Hlag.
  destruct (@loop_returns env send_sock multicast_group port message interval
              duration encoded_message Hi Henc Hacc Hfits Hquiet Hlag
              (clock w) (Z.to_nat (Qfloor (duration / interval)) + 1) 0 w
              Hflag)
    as [m0 [w' [Hrun _]]].
  { rewrite sched_0. simpl. lra. }
  { apply floor_sched_gt; assumption. }
  destruct (@send_loop_from_in_time env send_sock multicast_group port
              message interval duration encoded_message (clock w) Hi Henc
              Hacc Hfits Hquiet Hlag _ _ _ _ _ Hrun Hflag)
    as [m [Hw [_ [Hlow Hup]]]].
  { rewrite sched_0. simpl. lra. }
  exists m, w'. split; [|split; [assumption|]].
  - intros fuel Hfuel. unfold Send_Multicast_Message, send_loop.
    rewrite (send_loop_from_more_fuel _ _ _ _ _ _ _ _ _ _ Hrun) by lia.
    reflexivity.
  - intros j. split.
    + intros Hj. destruct Hup as [->|Hup]; [lia|].
      pose proof (@reading_mono env interval Hi Hlag j (0 + m - 1)) as Hm.
      specialize (Hm ltac:(lia)). lra.
    + intros Hj. apply (Hlow j Hj).
Qed.

Lemma Send_Multicast_Message_sends_while_in_time_witness :
  exists (m : nat) (w' : world),
    (forall fuel,
        Z.to_nat (Qfloor (5 / 1)) + 2 <= fuel ->
        Send_Multicast_Message sluggish send_socket default_group 5999
          (lit "hello") 1 5 fuel quiet_world = Some w')
    /\ wire w'
       = wire quiet_world
         ++ repeat (mkDatagram (fileno send_socket) (ascii_bytes "hello")
                      (default_group, 5999%Z)) m
    /\ (forall j, j < m <-> (reading sluggish 1 j <= 5)%Q).
Proof.
  apply (@Send_Multicast_Message_sends_while_in_time
           sluggish send_socket default_group 5999 (lit "hello") 1 5
           (ascii_bytes "hello") quiet_world).
  - reflexivity.
  - discriminate.
  - discriminate.
  - reflexivity.
  - unfold accepted, largest_payload. cbn [fst snd].
    repeat split; try reflexivity; try lia; discriminate.
  - reflexivity.
  - intros k. reflexivity.
  - intros k. discriminate.
Defined.

(** X17.  The number of datagrams of a call that is not stopped, under
    the conditions of X16, when the delays that the surroundings add over
    the first [n = floor(duration / interval)] iterations sum to at most
    one interval: [n] or [n + 1] datagrams are sent, and [n + 1] exactly
    when iteration [n] still reads the clock within the deadline, that
    is, when the delays up to and including that iteration fit into what
    [n] sleeps leave of the duration.  So when [duration] is a multiple
    of [interval], any delay at all, however small, makes it [n]. *)
Theorem Send_Multicast_Message_exact_count :
  forall (env : surroundings) (send_sock : socket_obj)
         (multicast_group : str) (port : Z) (message : str)
         (interval duration : Q) (encoded_message : bytes) (w : world),
    (0 < interval)%Q ->
    (interval <= longest_sleep)%Q ->
    (0 <= duration)%Q ->
    Utf8.encode message = Some encoded_message ->
    accepted env encoded_message (multicast_group, port) ->
    stop_sending w = false ->
    (forall k, stop_request env k = false) ->
    (forall k, (0 <= lag env k)%Q) ->
    let n := Z.to_nat (Qfloor (duration / interval)) in
    (lag_sum env n <= interval)%Q ->
    exists (m : nat) (w' : world),
      (forall fuel,
          n + 2 <= fuel ->
          Send_Multicast_Message env send_sock multicast_group port message
            interval duration fuel w = Some w')
      /\ wire w'
         = wire w
           ++ repeat (mkDatagram (fileno send_sock) encoded_message
                        (multicast_group, port)) m
      /\ n <= m <= n + 1
      /\ (m = n + 1 <-> (reading env interval n <= duration)%Q)
      /\ ((duration == sched interval n)%Q ->
          (0 < lag_sum env (S n))%Q -> m = n).
Proof.
  intros env send_sock multicast_group port message interval duration
    encoded_message w Hi Hfits Hd Henc Hacc Hflag Hquiet Hlag n Hsum.
  destruct (@loop_returns env send_sock multicast_group port message interval
              duration encoded_message Hi Henc Hacc Hfits Hquiet Hlag
              (clock w) (n + 1) 0 w Hflag)
    as [m0 [w' [Hrun _]]].
  { rewrite sched_0. simpl. lra. }
  { apply floor_sched_gt; assumption. }
  destruct (@send_loop_from_in_time env send_sock multicast_group port
              message interval duration encoded_message (clock w) Hi Henc
              Hacc Hfits Hquiet Hlag _ _ _ _ _ Hrun Hflag)
    as [m [Hw [_ [Hlow Hup]]]].
  { rewrite sched_0. simpl. lra. }
  cbn [Nat.add] in Hlow, Hup.
  assert (Hn : n <= m).
  { destruct n as [|n'] eqn:En; [lia|].
    assert (Hread : (reading env interval n' <= duration)%Q).
    { pose proof (@floor_sched_le interval duration Hi Hd) as Hfl.
      fold n in Hfl. rewrite En, sched_S in Hfl. unfold reading. lra. }
    specialize (Hlow n' Hread). lia. }
  assert (Hm : m <= n + 1).
  { destruct Hup as [->|Hup]; [lia|].
    assert (Hs : (sched interval (m - 1) <= duration)%Q).
    { pose proof (@lag_sum_nonneg env Hlag (S (m - 1))). unfold reading in Hup.
      lra. }
    apply sched_le_floor in Hs; [|assumption]. fold n in Hs. lia. }
  assert (Hiff : m = n + 1 <-> (reading env interval n <= duration)%Q).
  { split.
    - intros ->. destruct Hup as [Hup|Hup]; [lia|].
      replace (n + 1 - 1) with n in Hup by lia. assumption.
    - intros Hread. specialize (Hlow n Hread). lia. }
  exists m, w'. repeat split; try assumption; try apply Hiff.
  - intros fuel Hfuel. unfold Send_Multicast_Message, send_loop.
    rewrite (send_loop_from_more_fuel _ _ _ _ _ _ _ _ _ _ Hrun) by lia.
    reflexivity.
  - intros Hmult Hpos.
    assert (Hnot : m <> n + 1).
    { intros E. apply Hiff in E. unfold reading in E. lra. }
    lia.
Qed.

Lemma Send_Multicast_Message_exact_count_witness :
  exists (m : nat) (w' : world),
    (forall fuel,
        Z.to_nat (Qfloor (5 / 1)) + 2 <= fuel ->
        Send_Multicast_Message brisk send_socket default_group 5999
          (lit "hello") 1 5 fuel quiet_world = Some w')
    /\ wire w'
       = wire quiet_world
         ++ repeat (mkDatagram (fileno send_socket) (ascii_bytes "hello")
                      (default_group, 5999%Z)) m
    /\ Z.to_nat (Qfloor (5 / 1)) <= m <= Z.to_nat (Qfloor (5 / 1)) + 1
    /\ (m = Z.to_nat (Qfloor (5 / 1)) + 1
        <-> (reading brisk 1 (Z.to_nat (Qfloor (5 / 1))) <= 5)%Q)
    /\ ((5 == sched 1 (Z.to_nat (Qfloor (5 / 1))))%Q ->
        (0 < lag_sum brisk (S (Z.to_nat (Qfloor (5 / 1)))))%Q ->
        m = Z.to_nat (Qfloor (5 / 1))).
Proof.
  apply (@Send_Multicast_Message_exact_count
           brisk send_socket default_group 5999 (lit "hello") 1 5
           (ascii_bytes "hello") quiet_world).
  - reflexivity.
  - discriminate.
  - discriminate.
  - reflexivity.
  - unfold accepted, largest_payload. cbn [fst snd].
    repeat split; try reflexivity; try lia; discriminate.
  - reflexivity.
  - intros k. reflexivity.
  - intros k. discriminate.
  - discriminate.
Defined.

(** ** Send Multicast Message: stop requests and failures in the thread *)

Lemma send_loop_from_stops (env : surroundings) (send_sock : socket_obj)
    (multicast_group : str) (port : Z) (message : str)
    (interval duration : Q) (start_time : Q) :
  forall (j k fuel : nat) (w : world),
    stop_request env (k + j) = true ->
    j < fuel ->
    exists w' r,
      send_loop_from env send_sock multicast_group port message interval
        duration fuel k start_time w = Some (w', r)
      /\ length (wire w') <= length (wire w) + j.
Proof.
  induction j as [|j IH]; intros k fuel w Hreq Hfuel;
    (destruct fuel as [|fuel]; [lia|]);
    rewrite send_loop_from_S; cbv zeta.
  - rewrite Nat.add_0_r in Hreq. rewrite Hreq.
    cbn [event_set stop_sending]. do 2 eexists. split; [reflexivity|].
    cbn [event_set wire]. lia.
  - destruct (stop_sending (if stop_request env k then event_set w else w))
      eqn:Hflag.
    { do 2 eexists. split; [reflexivity|].
      destruct (stop_request env k); cbn [event_set wire]; lia. }
    assert (Hw1 : wire (if stop_request env k then event_set w else w)
                  = wire w) by (destruct (stop_request env k); reflexivity).
    set (w1 := if stop_request env k then event_set w else w) in *.
    destruct (Qgt_bool (clock (time_passes (lag env k) w1) - start_time)
                duration).
    { do 2 eexists. split; [reflexivity|]. cbn [time_passes wire]. rewrite Hw1. lia. }
    destruct (str_encode message) as [encoded|e].
    2:{ do 2 eexists. split; [reflexivity|]. cbn [time_passes wire]. rewrite Hw1. lia. }
    match goal with
    | |- context [sendto ?e ?s ?d ?t ?v] =>
        destruct (sendto e s d t v) as [w2 r2] eqn:Hsend
    end.
    apply sendto_cases in Hsend.
    destruct Hsend as [[-> ->]|[-> [_ [e ->]]]].
    2:{ do 2 eexists. split; [reflexivity|].
        cbn [time_passes wire]. rewrite Hw1. lia. }
    match goal with
    | |- context [time_sleep ?i ?v] =>
        destruct (time_sleep i v) as [w3 r3] eqn:Hsleep
    end.
    apply time_sleep_cases in Hsleep.
    destruct Hsleep as [[_ [-> ->]]|[-> [_ [e [-> _]]]]].
    + match goal with
      | |- context [send_loop_from _ _ _ _ _ _ _ fuel (S k) _ ?w4] =>
          destruct (IH (S k) fuel w4) as [w' [r [Hrun Hlen]]];
          [ now rewrite <- Nat.add_succ_comm in Hreq | lia | ]
      end.
      exists w', r. split; [assumption|].
      cbn [time_passes wire] in Hlen. rewrite length_app, Hw1 in Hlen.
      cbn [length] in Hlen. lia.
    + do 2 eexists. split; [reflexivity|].
      cbn [time_passes wire]. rewrite length_app, Hw1. cbn [length]. lia.
Qed.

(** X18.  A stop request that arrives before the flag test of iteration
    [k] ends the call by that iteration, whatever the interval, the
    duration and the delays are, and at most [k] datagrams have been sent
    by then. *)
Theorem Send_Multicast_Message_stop_request_ends_call :
  forall (env : surroundings) (send_sock : socket_obj)
         (multicast_group : str) (port : Z) (message : str)
         (interval duration : Q) (k fuel : nat) (w : world),
    stop_request env k = true ->
    k < fuel ->
    exists w',
      Send_Multicast_Message env send_sock multicast_group port message
        interval duration fuel w = Some w'
      /\ length (wire w') <= length (wire w) + k.
Proof.
  intros env send_sock multicast_group port message interval duration k fuel
    w Hreq Hfuel. unfold Send_Multicast_Message, send_loop.
  destruct (@send_loop_from_stops env send_sock multicast_group port message
              interval duration (clock w) k 0 fuel w Hreq Hfuel)
    as [w' [r [Hrun Hlen]]].
  rewrite Hrun. exists w'. split; [reflexivity | assumption].
Qed.

Lemma Send_Multicast_Message_stop_request_ends_call_witness :
  exists w',
    Send_Multicast_Message interrupted send_socket default_group 5999
      (lit "hello") 0 5 3 quiet_world = Some w'
    /\ length (wire w') <= length (wire quiet_world) + 2.
Proof.
  apply (@Send_Multicast_Message_stop_request_ends_call
           interrupted send_socket default_group 5999 (lit "hello") 0 5 2 3
           quiet_world).
  - reflexivity.
  - lia.
Defined.

(** X19.  An exception inside the sending thread does not reach the
    caller: the keyword returns normally.  With a host name that converts
    and resolves and a port outside 0..65535 the first [sendto] raises
    [OverflowError] and nothing is sent; with a destination and payload
    that [sendto] accepts and a negative interval (of less than about 292
    years) the first [sleep] raises [ValueError] after exactly one
    datagram has been sent. *)
Theorem Send_Multicast_Message_thread_failure_is_silent :
  forall (env : surroundings) (send_sock : socket_obj)
         (multicast_group : str) (port : Z) (message : str)
         (interval duration : Q) (encoded_message : bytes) (fuel : nat)
         (w : world),
    stop_sending w = false ->
    stop_request env 0 = false ->
    (lag env 0 <= duration)%Q ->
    Utf8.encode message = Some encoded_message ->
    (host_converts env multicast_group = true ->
     resolves env multicast_group = true ->
     ~ (0 <= port <= 65535)%Z ->
     exists w' e,
       send_loop env send_sock multicast_group port message interval
         duration (S fuel) w = Some (w', Raise e)
       /\ exn_class e = OverflowError
       /\ Send_Multicast_Message env send_sock multicast_group port message
            interval duration (S fuel) w = Some w'
       /\ wire w' = wire w)
    /\ (accepted env encoded_message (multicast_group, port) ->
        (interval < 0)%Q ->
        (- longest_sleep <= interval)%Q ->
        exists w' e,
          send_loop env send_sock multicast_group port message interval
            duration (S fuel) w = Some (w', Raise e)
          /\ exn_class e = ValueError
          /\ Send_Multicast_Message env send_sock multicast_group port
               message interval duration (S fuel) w = Some w'
          /\ wire w'
             = wire w ++ [mkDatagram (fileno send_sock) encoded_message
                            (multicast_group, port)]).
Proof.
  intros env send_sock multicast_group port message interval duration
    encoded_message fuel w Hflag Hreq Hlag0 Henc.
  assert (Hintime : Qgt_bool (clock w + lag env 0 - clock w) duration = false)
    by (apply Qgt_bool_false; lra).
  split.
  - intros Hconv Hres Hport.
    unfold Send_Multicast_Message, send_loop.
    rewrite send_loop_from_S, Hreq. cbv zeta. rewrite Hflag.
    cbn [time_passes clock]. rewrite Hintime.
    unfold str_encode. rewrite Henc. unfold sendto.
    apply host_converts_true in Hconv. destruct Hconv as [Hname Hnull].
    rewrite Hname, Hnull, Hres. cbn [negb].
    destruct (fits_int port).
    + replace ((0 <=? port) && (port <=? 65535))%Z with false.
      * cbn [negb]. do 2 eexists. repeat split.
      * symmetry. apply andb_false_iff.
        destruct (Z_lt_le_dec port 0) as [Hlow|Hlow];
          [left | right]; apply Z.leb_gt; lia.
    + cbn [negb]. do 2 eexists. repeat split.
  - intros Hacc Hneg Hmin.
    unfold Send_Multicast_Message, send_loop.
    rewrite send_loop_from_S, Hreq. cbv zeta. rewrite Hflag.
    cbn [time_passes clock]. rewrite Hintime.
    unfold str_encode. rewrite Henc.
    rewrite (sendto_accepted send_sock _ Hacc).
    rewrite time_sleep_negative by assumption.
    do 2 eexists. repeat split.
Qed.

Lemma Send_Multicast_Message_thread_failure_is_silent_witness :
  (exists w' e,
      send_loop brisk send_socket default_group 70000 (lit "hello") 1 5
        1 quiet_world = Some (w', Raise e)
      /\ exn_class e = OverflowError
      /\ Send_Multicast_Message brisk send_socket default_group 70000
           (lit "hello") 1 5 1 quiet_world = Some w'
      /\ wire w' = wire quiet_world)
  /\ (exists w' e,
         send_loop brisk send_socket default_group 5999 (lit "hello")
           (-1) 5 1 quiet_world = Some (w', Raise e)
         /\ exn_class e = ValueError
         /\ Send_Multicast_Message brisk send_socket default_group 5999
              (lit "hello") (-1) 5 1 quiet_world = Some w'
         /\ wire w'
            = wire quiet_world
              ++ [mkDatagram (fileno send_socket) (ascii_bytes "hello")
                    (default_group, 5999%Z)]).
Proof.
  split.
  - apply (proj1 (@Send_Multicast_Message_thread_failure_is_silent
                    brisk send_socket default_group 70000 (lit "hello")
                    1 5 (ascii_bytes "hello") 0 quiet_world
                    eq_refl eq_refl ltac:(discriminate) eq_refl)).
    + reflexivity.
    + reflexivity.
    + lia.
  - apply (proj2 (@Send_Multicast_Message_thread_failure_is_silent
                    brisk send_socket default_group 5999 (lit "hello")
                    (-1) 5 (ascii_bytes "hello") 0 quiet_world
                    eq_refl eq_refl ltac:(discriminate) eq_refl)).
    + unfold accepted, largest_payload. cbn [fst snd].
      repeat split; try reflexivity; try lia; discriminate.
    + reflexivity.
    + discriminate.
Defined.

(** ** From the sender to the receiver *)

Lemma split_2 (cp : N) :
  exists a b,
    ((cp / 64 = a /\ cp mod 64 = b) /\ cp = a * 64 + b /\ b < 64)%N.
Proof.
  exists (cp / 64)%N, (cp mod 64)%N.
  repeat split; try (apply N.mod_lt; discriminate).
  pose proof (N.div_mod' cp 64). lia.
Qed.

Lemma split_3 (cp : N) :
  exists a b c,
    ((cp / 4096 = a /\ (cp / 64) mod 64 = b /\ cp mod 64 = c)
     /\ cp = a * 4096 + b * 64 + c /\ b < 64 /\ c < 64)%N.
Proof.
  exists (cp / 4096)%N, ((cp / 64) mod 64)%N, (cp mod 64)%N.
  repeat split; try (apply N.mod_lt; discriminate).
  pose proof (N.div_mod' cp 64) as H1.
  pose proof (N.div_mod' (cp / 64) 64) as H2.
  rewrite N.Div0.div_div in H2. change (64 * 64)%N with 4096%N in H2. lia.
Qed.

Lemma split_4 (cp : N) :
  exists a b c d,
    ((cp / 262144 = a /\ (cp / 4096) mod 64 = b /\ (cp / 64) mod 64 = c
      /\ cp mod 64 = d)
     /\ cp = a * 262144 + b * 4096 + c * 64 + d
     /\ b < 64 /\ c < 64 /\ d < 64)%N.
Proof.
  exists (cp / 262144)%N, ((cp / 4096) mod 64)%N, ((cp / 64) mod 64)%N,
    (cp mod 64)%N.
  repeat split; try (apply N.mod_lt; discriminate).
  pose proof (N.div_mod' cp 64) as H1.
  pose proof (N.div_mod' (cp / 64) 64) as H2.
  pose proof (N.div_mod' (cp / 4096) 64) as H3.
  rewrite N.Div0.div_div in H2. change (64 * 64)%N with 4096%N in H2.
  rewrite N.Div0.div_div in H3. change (4096 * 64)%N with 262144%N in H3.
  lia.
Qed.

Ltac prove_condition :=
  unfold Utf8.is_cont, Utf8.is_surrogate in *;
  repeat match goal with
    | H : (_ && _) = false |- _ => apply andb_false_iff in H; destruct H
    end;
  bool_to_prop;
  rewrite ?andb_true_iff, ?negb_true_iff, ?andb_false_iff,
    ?N.leb_le, ?N.ltb_lt, ?N.leb_gt, ?N.ltb_ge;
  lia.

Ltac take_branch b :=
  match goal with
  | |- context [if ?c then _ else _] =>
      replace c with b by (symmetry; prove_condition)
  end.

(** Decoding undoes the encoding of one code point. *)
Lemma encode_cp_decode (cp : N) (b rest : bytes) :
  Utf8.encode_cp cp = Some b ->
  Utf8.decode (b ++ rest) = option_map (cons cp) (Utf8.decode rest).
Proof.
  unfold Utf8.encode_cp.
  destruct (cp <? 0x80)%N eqn:E1.
  { intros Hb. assert (b = [Utf8.octet cp]) by congruence.
    clear Hb. subst b. cbn [app].
    rewrite decode_cons. cbv zeta. bool_to_prop.
    rewrite octet_to_N by lia. now take_branch true. }
  destruct (cp <? 0x800)%N eqn:E2.
  { destruct (split_2 cp) as (a0 & a1 & [-> ->] & Hcp & ?).
    intros Hb.
    assert (b = [Utf8.octet (0xC0 + a0); Utf8.octet (0x80 + a1)])
      by congruence.
    clear Hb. subst b. cbn [app]. bool_to_prop.
    rewrite decode_cons. cbv zeta. rewrite !octet_to_N by lia.
    take_branch false. take_branch false. take_branch true.
    take_branch true. f_equal. f_equal. lia. }
  destruct (cp <? 0x10000)%N eqn:E3.
  { destruct (Utf8.is_surrogate cp) eqn:Es; [discriminate|].
    destruct (split_3 cp) as (a0 & a1 & a2 & [-> [-> ->]] & Hcp & ? & ?).
    intros Hb.
    assert (b = [Utf8.octet (0xE0 + a0); Utf8.octet (0x80 + a1);
                 Utf8.octet (0x80 + a2)]) by congruence.
    clear Hb. subst b. cbn [app]. bool_to_prop.
    rewrite decode_cons. cbv zeta. rewrite !octet_to_N by lia.
    take_branch false. take_branch false. take_branch false.
    take_branch true. take_branch true. f_equal. f_equal. lia. }
  destruct (cp <? 0x110000)%N eqn:E4; [|discriminate].
  destruct (split_4 cp)
    as (a0 & a1 & a2 & a3 & [-> [-> [-> ->]]] & Hcp & ? & ? & ?).
  intros Hb.
  assert (b = [Utf8.octet (0xF0 + a0); Utf8.octet (0x80 + a1);
               Utf8.octet (0x80 + a2); Utf8.octet (0x80 + a3)])
    by congruence.
  clear Hb. subst b. cbn [app]. bool_to_prop.
  rewrite decode_cons. cbv zeta. rewrite !octet_to_N by lia.
  take_branch false. take_branch false. take_branch false.
  take_branch false. take_branch true. take_branch true.
  f_equal. f_equal. lia.
Qed.

(** What [encode] produces, [decode] reads back. *)
Lemma decode_encode (s : str) (b : bytes) :
  Utf8.encode s = Some b -> Utf8.decode b = Some s.
Proof.
  revert b. induction s as [|cp rest IH]; intros b; simpl.
  - intros H. now inversion H.
  - destruct (Utf8.encode_cp cp) as [b1|] eqn:Hcp; [|discriminate].
    destruct (Utf8.encode rest) as [b2|]; [|discriminate].
    intros H. inversion H; subst b.
    rewrite (@encode_cp_decode cp b1 b2 Hcp), (IH b2 eq_refl). reflexivity.
Qed.

Lemma firstn_short (A : Type) (n : nat) (l : list A) :
  length l <= n -> firstn n l = l.
Proof. apply firstn_all2. Qed.

(** A datagram of at most 1024 octets that encodes [message] is
    delivered as [message]. *)
Lemma delivered_whole (message : str) (encoded_message : bytes)
    (src : address) :
  Utf8.encode message = Some encoded_message ->
  length encoded_message <= 1024 ->
  delivered (encoded_message, src) message.
Proof.
  intros Henc Hlen. unfold delivered, recvfrom_data. cbn [fst].
  rewrite firstn_short by assumption. now apply decode_encode.
Qed.

Lemma Should_Messages_Be_Equal_repeat (message : str) (n : nat) :
  n <> 0 -> Should_Messages_Be_Equal message (repeat message n) = Ok tt.
Proof.
  intros Hn. unfold Should_Messages_Be_Equal.
  replace (contains message (repeat message n)) with true; [reflexivity|].
  symmetry. apply contains_true_iff.
  destruct n as [|n]; [contradiction | now left].
Qed.

(** X13.  Round trip.  Let a sender start on an idle network with a
    message whose UTF-8 encoding has at most 1024 octets, and let a
    receive window be made of datagrams of that sender only: any of them,
    lost, repeated or reordered by the network.  If the window ends with
    a timeout, the receiver returns one verbatim copy of the message per
    datagram that arrived, and as soon as one arrived
    [Should_Messages_Be_Equal] passes on the message and that list. *)
Theorem sent_message_is_received_verbatim :
  forall (env : surroundings) (send_sock : socket_obj)
         (multicast_group : str) (port : Z) (message : str)
         (interval duration : Q) (fuel : nat) (w w' : world)
         (encoded_message : bytes) (t : traffic) (recv_sock : socket_obj)
         (timeout : Q),
    wire w = [] ->
    Send_Multicast_Message env send_sock multicast_group port message
      interval duration fuel w = Some w' ->
    Utf8.encode message = Some encoded_message ->
    length encoded_message <= 1024 ->
    Forall (fun a => In (fst a) (map payload (wire w'))) (arrivals t) ->
    (0 <= timeout)%Q ->
    caught_by (failure t) socket_timeout = true ->
    snd (Receive_Multicast_Message t recv_sock timeout)
    = Ok (repeat message (length (arrivals t)))
    /\ (arrivals t <> [] ->
        Should_Messages_Be_Equal message
          (repeat message (length (arrivals t))) = Ok tt).
Proof.
  intros env send_sock multicast_group port message interval duration fuel
    w w' encoded_message t recv_sock timeout Hidle Hsend Henc Hlen Harr Hto
    Hc.
  assert (Hpay : forall p, In p (map payload (wire w')) -> p = encoded_message).
  { unfold Send_Multicast_Message, send_loop in Hsend.
    destruct (send_loop_from env send_sock multicast_group port message
                interval duration fuel 0 (clock w) w) as [[w1 r]|] eqn:Hrun;
      [|discriminate].
    inversion Hsend; subst w1.
    apply send_loop_from_appends in Hrun.
    destruct Hrun as [sent_now [Hw [_ Hall]]].
    rewrite Hidle in Hw. cbn [app] in Hw. rewrite Hw.
    intros p Hp. apply in_map_iff in Hp. destruct Hp as [d [Hd Hin]].
    rewrite Forall_forall in Hall.
    destruct (Hall d Hin) as [_ [_ Hd']]. congruence. }
  assert (Hall : Forall2 delivered (arrivals t)
                   (repeat message (length (arrivals t)))).
  { induction (arrivals t) as [|[p src] rest IH]; cbn [length repeat].
    - constructor.
    - inversion Harr as [|a l Ha Hrest]; subst.
      constructor; [|now apply IH].
      cbn [fst] in Ha. rewrite (Hpay p Ha).
      now apply delivered_whole. }
  split.
  - now rewrite (@Receive_Multicast_Message_returns t recv_sock timeout
                   _ Hto Hall Hc).
  - intros Hne. apply Should_Messages_Be_Equal_repeat.
    destruct (arrivals t); [contradiction | discriminate].
Qed.

Lemma sent_message_is_received_verbatim_witness :
  snd (Receive_Multicast_Message hello_twice recv_socket 5)
  = Ok (repeat (lit "hello") (length (arrivals hello_twice)))
  /\ (arrivals hello_twice <> [] ->
      Should_Messages_Be_Equal (lit "hello")
        (repeat (lit "hello") (length (arrivals hello_twice))) = Ok tt).
Proof.
  apply (@sent_message_is_received_verbatim
           punctual send_socket default_group 5999 (lit "hello") 1 2 10
           quiet_world (mkWorld 1003 false (repeat hello 3))
           (ascii_bytes "hello") hello_twice recv_socket 5).
  - reflexivity.
  - vm_compute. reflexivity.
  - reflexivity.
  - simpl. lia.
  - repeat constructor.
  - discriminate.
  - reflexivity.
Defined.

(** ** Extracting Video Frames *)

Lemma uint_digits_inj (d1 d2 : Decimal.uint) :
  uint_digits d1 = uint_digits d2 -> d1 = d2.
Proof.
  revert d2. induction d1 as [|d1 IH|d1 IH|d1 IH|d1 IH|d1 IH|d1 IH|d1 IH
                              |d1 IH|d1 IH|d1 IH];
    intros d2; destruct d2; simpl; intros H;
    try discriminate H; try reflexivity;
    injection H as H; f_equal; now apply IH.
Qed.

(** Zeros in front are further digits [0]. *)
Lemma pad_digits (k : nat) (d : Decimal.uint) :
  repeat 48%N k ++ uint_digits d = uint_digits (Nat.iter k Decimal.D0 d).
Proof.
  induction k as [|k IH]; simpl; [reflexivity | now rewrite IH].
Qed.

Lemma of_uint_pad (k : nat) (d : Decimal.uint) :
  Nat.of_uint (Nat.iter k Decimal.D0 d) = Nat.of_uint d.
Proof.
  induction k as [|k IH]; simpl; [reflexivity|].
  rewrite <- IH. reflexivity.
Qed.

(** The number of a frame can be read back from its four or more
    digits. *)
Lemma format_04d_inj (a b : nat) : format_04d a = format_04d b -> a = b.
Proof.
  unfold format_04d, format_d. cbv zeta. rewrite !pad_digits.
  intros H. apply uint_digits_inj in H.
  apply (f_equal Nat.of_uint) in H.
  rewrite !of_uint_pad, !DecimalNat.Unsigned.of_to in H. assumption.
Qed.

Lemma frame_name_inj (file_format : str) (a b : nat) :
  frame_name file_format a = frame_name file_format b -> a = b.
Proof.
  unfold frame_name. intros H. apply app_inv_head in H.
  apply app_inv_tail in H. now apply format_04d_inj.
Qed.

Lemma join_frame_name (directory_path file_format : str) (k : nat) :
  exists prefix,
    forall j, os_path_join directory_path (frame_name file_format j)
              = prefix ++ frame_name file_format j.
Proof.
  unfold os_path_join.
  destruct (match directory_path with
            | [] => true
            | _ => ends_with_slash directory_path
            end).
  - exists directory_path. intros j. reflexivity.
  - exists (directory_path ++ [slash]). intros j.
    cbn [starts_with_slash frame_name lit]. simpl.
    now rewrite <- app_assoc.
Qed.

Lemma frame_path_inj (directory_path file_format : str) (a b : nat) :
  os_path_join directory_path (frame_name file_format a)
  = os_path_join directory_path (frame_name file_format b) ->
  a = b.
Proof.
  destruct (join_frame_name directory_path file_format 0) as [prefix Hp].
  rewrite !Hp. intros H. apply app_inv_head in H.
  now apply frame_name_inj in H.
Qed.

Example frame_name_7 :
  frame_name (lit "jpg") 7 = lit "frame_0007.jpg".
Proof. reflexivity. Qed.

Example frame_name_12345 :
  frame_name (lit "png") (12 * 1000 + 345) = lit "frame_12345.png".
Proof. reflexivity. Qed.

Example join_plain : os_path_join (lit "out") (lit "x.jpg") = lit "out/x.jpg".
Proof. reflexivity. Qed.

Example join_root : os_path_join (lit "/") (lit "x.jpg") = lit "/x.jpg".
Proof. reflexivity. Qed.

Section Extraction.

Variable st : studio.
Variables (video_file file_format : str).

Let frame_path (directory_path : str) (i : nat) : str :=
  os_path_join directory_path (frame_name file_format i).

(** A list returned by the loop is the list it started with, followed by
    one path per frame, numbered from the current frame count. *)
Lemma extract_loop_Ok (directory_path : str) :
  forall (video_obj : list frame) (frame_count : nat) (done done' : effects)
         (video_frames paths : list str),
    extract_loop st video_file file_format directory_path video_obj
      frame_count done video_frames = (done', Ok paths) ->
    paths
    = video_frames
      ++ map (frame_path directory_path) (seq frame_count (length video_obj))
    /\ made done' = made done.
Proof.
  induction video_obj as [|frame rest IH];
    intros frame_count done done' video_frames paths Hrun;
    cbn [extract_loop] in Hrun.
  - inversion Hrun; subst. cbn [length seq map]. now rewrite app_nil_r.
  - cbv zeta in Hrun.
    destruct (imwrite st (os_path_join directory_path
                            (frame_name file_format frame_count)) frame)
      eqn:Hw; [| |discriminate];
      match type of Hrun with
      | (if ?c then _ else _) = _ => destruct c; [|discriminate]
      end;
      apply IH in Hrun; destruct Hrun as [Hp Hm];
      rewrite Nat.add_1_r in Hp; cbn [length seq map];
      rewrite Hp, <- app_assoc; split; try reflexivity; assumption.
Qed.

(** When every write succeeds, the loop writes and returns exactly these
    paths. *)
Lemma extract_loop_all_written (directory_path : str) :
  (forall filename frame, imwrite st filename frame = Written) ->
  forall (video_obj : list frame) (frame_count : nat) (done : effects)
         (video_frames : list str),
    extract_loop st video_file file_format directory_path video_obj
      frame_count done video_frames
    = (mkEffects (made done)
         (written done
          ++ map (frame_path directory_path)
               (seq frame_count (length video_obj))),
       Ok (video_frames
           ++ map (frame_path directory_path)
                (seq frame_count (length video_obj)))).
Proof.
  intros Hall. induction video_obj as [|frame rest IH];
    intros frame_count done video_frames; cbn [extract_loop].
  - cbn [length seq map]. rewrite !app_nil_r. now destruct done.
  - cbv zeta. rewrite Hall. unfold exists_now. cbn [written].
    replace (existsb _ (written done ++ _)) with true.
    2:{ symmetry. rewrite existsb_app. apply orb_true_iff. right.
        cbn [existsb]. apply orb_true_iff. left.
        now apply str_eqb_true_iff. }
    rewrite orb_true_r, IH, Nat.add_1_r. cbn [made written length seq map].
    now rewrite <- !app_assoc.
Qed.

End Extraction.

Lemma Extracting_Video_Frames_Ok_inv (st : studio)
    (video_file file_format : str) (output_dir : option str)
    (done : effects) (paths : list str) :
  Extracting_Video_Frames st video_file file_format output_dir
  = (done, Ok paths) ->
  exists frames,
    videos st video_file = Some frames
    /\ paths
       = map (fun i =>
                os_path_join
                  match output_dir with
                  | None => cwd st
                  | Some dir => path_str st dir
                  end (frame_name file_format i))
           (seq 0 (length frames)).
Proof.
  unfold Extracting_Video_Frames, os_path_exists, VideoCapture.
  destruct (videos st video_file) as [frames|]; cbn [negb]; [|discriminate].
  intros Hrun. exists frames. split; [reflexivity|].
  destruct output_dir as [dir|].
  - destruct (makedirs st dir); [discriminate|].
    apply extract_loop_Ok in Hrun. now destruct Hrun as [-> _].
  - apply extract_loop_Ok in Hrun. now destruct Hrun as [-> _].
Qed.

(** X2.  The list that [Extracting_Video_Frames] returns has one path per
    frame of the video, in frame order: frame [i] is at
    [frame_<i:04d>.<file_format>] inside the output directory (the
    working directory when none is given).  When the video exists, the
    directory can be made and every frame can be written, the keyword
    returns that list and has written exactly these files. *)
Theorem Extracting_Video_Frames_paths :
  forall (st : studio) (video_file file_format : str)
         (output_dir : option str),
    let directory_path :=
      match output_dir with
      | None => cwd st
      | Some dir => path_str st dir
      end in
    let frame_path i := os_path_join directory_path (frame_name file_format i) in
    (forall done paths,
        Extracting_Video_Frames st video_file file_format output_dir
        = (done, Ok paths) ->
        exists frames,
          videos st video_file = Some frames
          /\ paths = map frame_path (seq 0 (length frames)))
    /\ (forall frames,
          videos st video_file = Some frames ->
          (forall dir, output_dir = Some dir -> makedirs st dir = None) ->
          (forall filename frame, imwrite st filename frame = Written) ->
          exists done,
            Extracting_Video_Frames st video_file file_format output_dir
            = (done, Ok (map frame_path (seq 0 (length frames))))
            /\ written done = map frame_path (seq 0 (length frames))).
Proof.
  intros st video_file file_format output_dir directory_path frame_path.
  split.
  - intros done paths Hrun.
    now apply Extracting_Video_Frames_Ok_inv in Hrun.
  - intros frames Hvideo Hmk Hwrite.
    unfold Extracting_Video_Frames, os_path_exists, VideoCapture.
    rewrite Hvideo. cbn [negb].
    destruct output_dir as [dir|].
    + rewrite (Hmk dir eq_refl).
      rewrite extract_loop_all_written by assumption.
      eexists. split; reflexivity.
    + rewrite extract_loop_all_written by assumption.
      eexists. split; reflexivity.
Qed.

Lemma Extracting_Video_Frames_paths_witness :
  (exists frames,
      videos tidy_studio (lit "clip.mp4") = Some frames
      /\ [lit "out/frame_0000.jpg"; lit "out/frame_0001.jpg";
          lit "out/frame_0002.jpg"]
         = map (fun i => os_path_join (path_str tidy_studio (lit "out"))
                           (frame_name (lit "jpg") i))
             (seq 0 (length frames)))
  /\ exists done,
       Extracting_Video_Frames tidy_studio (lit "clip.mp4") (lit "jpg")
         (Some (lit "out"))
       = (done, Ok (map (fun i => os_path_join
                                    (path_str tidy_studio (lit "out"))
                                    (frame_name (lit "jpg") i))
                      (seq 0 (length [0; 1; 2]))))
       /\ written done
          = map (fun i => os_path_join (path_str tidy_studio (lit "out"))
                            (frame_name (lit "jpg") i))
              (seq 0 (length [0; 1; 2])).
Proof.
  split.
  - apply (proj1 (Extracting_Video_Frames_paths tidy_studio
                    (lit "clip.mp4") (lit "jpg") (Some (lit "out")))
             (mkEffects [lit "out"]
                [lit "out/frame_0000.jpg"; lit "out/frame_0001.jpg";
                 lit "out/frame_0002.jpg"])).
    reflexivity.
  - apply (proj2 (Extracting_Video_Frames_paths tidy_studio
                    (lit "clip.mp4") (lit "jpg") (Some (lit "out")))).
    + reflexivity.
    + intros dir _. reflexivity.
    + intros filename frame. reflexivity.
Defined.

Lemma NoDup_map_injective (A B : Type) (f : A -> B) (l : list A) :
  (forall a b, f a = f b -> a = b) -> NoDup l -> NoDup (map f l).
Proof.
  intros Hinj Hl. induction Hl as [|a l Hnotin _ IH]; cbn [map].
  - constructor.
  - constructor; [|assumption].
    intros Hin. apply in_map_iff in Hin. destruct Hin as [b [Hb Hin]].
    apply Hinj in Hb. now subst b.
Qed.

(** X3.  No two frames of one extraction share a file: the returned
    paths are pairwise distinct, also beyond 9999 frames, where the
    numbers outgrow their four digits. *)
Theorem Extracting_Video_Frames_distinct_paths :
  forall (st : studio) (video_file file_format : str)
         (output_dir : option str) (done : effects) (paths : list str),
    Extracting_Video_Frames st video_file file_format output_dir
    = (done, Ok paths) ->
    NoDup paths.
Proof.
  intros st video_file file_format output_dir done paths Hrun.
  apply Extracting_Video_Frames_Ok_inv in Hrun.
  destruct Hrun as [frames [_ ->]].
  apply NoDup_map_injective; [|apply seq_NoDup].
  intros a b. apply frame_path_inj.
Qed.

Lemma Extracting_Video_Frames_distinct_paths_witness :
  NoDup [lit "out/frame_0000.jpg"; lit "out/frame_0001.jpg";
         lit "out/frame_0002.jpg"].
Proof.
  apply (@Extracting_Video_Frames_distinct_paths tidy_studio
           (lit "clip.mp4") (lit "jpg") (Some (lit "out"))
           (mkEffects [lit "out"]
              [lit "out/frame_0000.jpg"; lit "out/frame_0001.jpg";
               lit "out/frame_0002.jpg"])).
  reflexivity.
Defined.

(** X4.  The two frame keywords agree: whenever
    [Extracting_Video_Frames] returns a list for a video,
    [Get_Frame_count] on the same video returns the length of that
    list. *)
Theorem Extracting_Video_Frames_agrees_with_Get_Frame_count :
  forall (st : studio) (video_file file_format : str)
         (output_dir : option str) (done : effects) (paths : list str),
    Extracting_Video_Frames st video_file file_format output_dir
    = (done, Ok paths) ->
    Get_Frame_count (videos st) video_file = Ok (length paths).
Proof.
  intros st video_file file_format output_dir done paths Hrun.
  apply Extracting_Video_Frames_Ok_inv in Hrun.
  destruct Hrun as [frames [Hvideo ->]].
  rewrite length_map, length_seq.
  unfold Get_Frame_count, os_path_exists, VideoCapture. rewrite Hvideo.
  now rewrite read_frames_length.
Qed.

Lemma Extracting_Video_Frames_agrees_with_Get_Frame_count_witness :
  Get_Frame_count (videos tidy_studio) (lit "clip.mp4")
  = Ok (length [lit "/work/frame_0000.png"; lit "/work/frame_0001.png";
                lit "/work/frame_0002.png"]).
Proof.
  apply (@Extracting_Video_Frames_agrees_with_Get_Frame_count tidy_studio
           (lit "clip.mp4") (lit "png") None
           (mkEffects []
              [lit "/work/frame_0000.png"; lit "/work/frame_0001.png";
               lit "/work/frame_0002.png"])).
  reflexivity.
Defined.

Section Extraction_failure.

Variable st : studio.
Variables (video_file file_format directory_path : str).

Let frame_path (i : nat) : str :=
  os_path_join directory_path (frame_name file_format i).

(** The loop stops at the first frame whose file is not there after its
    write; the files written before stay. *)
Lemma extract_loop_stops (frame : frame) (after : list Media.frame) :
  forall (before : list Media.frame) (frame_count : nat) (done : effects)
         (video_frames : list str),
    (forall i fr, i < length before ->
                  imwrite st (frame_path (frame_count + i)) fr = Written) ->
    imwrite st (frame_path (frame_count + length before)) frame = NotWritten ->
    os_path_exists (videos st) (frame_path (frame_count + length before))
    = false ->
    ~ In (frame_path (frame_count + length before)) (written done) ->
    extract_loop st video_file file_format directory_path
      (before ++ frame :: after) frame_count done video_frames
    = (mkEffects (made done)
         (written done ++ map frame_path (seq frame_count (length before))),
       Raise (missing_video video_file)).
Proof.
  induction before as [|first before IH];
    intros frame_count done video_frames Hwritten Hfail Hnew Hfresh;
    cbn [app extract_loop length] in *; cbv zeta.
  - rewrite Nat.add_0_r in *. fold (frame_path frame_count).
    rewrite Hfail. unfold exists_now. rewrite Hnew.
    apply contains_false_iff in Hfresh. unfold contains in Hfresh.
    rewrite Hfresh. cbn [orb seq map]. rewrite app_nil_r. now destruct done.
  - fold (frame_path frame_count).
    pose proof (Hwritten 0 first ltac:(lia)) as H0.
    rewrite Nat.add_0_r in H0. rewrite H0.
    unfold exists_now. cbn [written].
    replace (existsb _ (written done ++ [frame_path frame_count])) with true.
    2:{ symmetry. rewrite existsb_app. apply orb_true_iff. right.
        cbn [existsb]. apply orb_true_iff. left.
        now apply str_eqb_true_iff. }
    rewrite orb_true_r, Nat.add_1_r.
    rewrite IH.
    + cbn [made written seq map]. now rewrite <- app_assoc.
    + intros i fr Hi. replace (S frame_count + i) with (frame_count + S i)
        by lia. apply Hwritten. lia.
    + now replace (S frame_count + length before)
        with (frame_count + S (length before)) by lia.
    + now replace (S frame_count + length before)
        with (frame_count + S (length before)) by lia.
    + replace (S frame_count + length before)
        with (frame_count + S (length before)) by lia.
      cbn [written]. intros Hin. apply in_app_or in Hin.
      destruct Hin as [Hin|[Heq|[]]]; [contradiction|].
      apply frame_path_inj in Heq. lia.
Qed.

End Extraction_failure.

(** X5.  Both [FileNotFoundError]s of [Extracting_Video_Frames] name the
    video file.  When the video is missing the error is raised before
    anything is created.  When the file of a frame is not there after its
    write, the error again names the video, not the frame file, and the
    frames written before it stay on disk. *)
Theorem Extracting_Video_Frames_reports_the_video :
  forall (st : studio) (video_file file_format : str)
         (output_dir : option str),
    let directory_path :=
      match output_dir with
      | None => cwd st
      | Some dir => path_str st dir
      end in
    let frame_path i := os_path_join directory_path (frame_name file_format i) in
    let not_found :=
      mkExn FileNotFoundError (video_file ++ lit " file does not exist!") in
    (videos st video_file = None ->
     Extracting_Video_Frames st video_file file_format output_dir
     = (mkEffects [] [], Raise not_found))
    /\ (forall before frame after,
          videos st video_file = Some (before ++ frame :: after) ->
          (forall dir, output_dir = Some dir -> makedirs st dir = None) ->
          (forall i fr, i < length before ->
                        imwrite st (frame_path i) fr = Written) ->
          imwrite st (frame_path (length before)) frame = NotWritten ->
          os_path_exists (videos st) (frame_path (length before)) = false ->
          exists done,
            Extracting_Video_Frames st video_file file_format output_dir
            = (done, Raise not_found)
            /\ written done = map frame_path (seq 0 (length before))).
Proof.
  intros st video_file file_format output_dir directory_path frame_path
    not_found. split.
  - intros Hvideo. unfold Extracting_Video_Frames, os_path_exists.
    now rewrite Hvideo.
  - intros before frame after Hvideo Hmk Hwritten Hfail Hnew.
    unfold Extracting_Video_Frames, os_path_exists, VideoCapture.
    rewrite Hvideo. cbn [negb].
    destruct output_dir as [dir|].
    + rewrite (Hmk dir eq_refl).
      rewrite extract_loop_stops; try assumption.
      * eexists. split; reflexivity.
      * intros [].
    + rewrite extract_loop_stops; try assumption.
      * eexists. split; reflexivity.
      * intros [].
Qed.

Lemma Extracting_Video_Frames_reports_the_video_witness :
  (videos full_disk_studio (lit "missing.mp4") = None ->
   Extracting_Video_Frames full_disk_studio (lit "missing.mp4") (lit "jpg")
     (Some (lit "out"))
   = (mkEffects [] [],
      Raise (mkExn FileNotFoundError
               (lit "missing.mp4" ++ lit " file does not exist!"))))
  /\ exists done,
       Extracting_Video_Frames full_disk_studio (lit "clip.mp4") (lit "jpg")
         (Some (lit "out"))
       = (done,
          Raise (mkExn FileNotFoundError
                   (lit "clip.mp4" ++ lit " file does not exist!")))
       /\ written done
          = map (fun i => os_path_join (path_str full_disk_studio (lit "out"))
                            (frame_name (lit "jpg") i))
              (seq 0 (length [0])).
Proof.
  split.
  - apply (proj1 (Extracting_Video_Frames_reports_the_video full_disk_studio
                    (lit "missing.mp4") (lit "jpg") (Some (lit "out")))).
  - apply (proj2 (Extracting_Video_Frames_reports_the_video full_disk_studio
                    (lit "clip.mp4") (lit "jpg") (Some (lit "out")))
             [0] 1 [2]).
    + reflexivity.
    + intros dir _. reflexivity.
    + intros i fr Hi. destruct i; [reflexivity | simpl in Hi; lia].
    + reflexivity.
    + reflexivity.
Defined.

(** ** Removing Video Frame Files *)

Lemma remove_loop_best_effort (c : cupboard) :
  forall (files : list str) (done : cleaning),
    (forall file e, In file files -> unlink c file = Some e ->
                    caught_by e Exception = true) ->
    remove_loop c files done
    = (mkCleaning (deleted done ++ filter (can_unlink c) files)
         (printed done ++ reports c files),
       Ok tt).
Proof.
  induction files as [|file rest IH]; intros done Hcaught;
    cbn [remove_loop filter reports flat_map].
  - rewrite !app_nil_r. now destruct done.
  - unfold can_unlink at 1.
    destruct (unlink c file) as [e|] eqn:Hu.
    + rewrite (Hcaught file e (or_introl eq_refl) Hu).
      rewrite IH by (intros f e' Hin; apply Hcaught; now right).
      cbn [deleted printed app]. fold (reports c rest).
      now rewrite <- app_assoc.
    + rewrite IH by (intros f e' Hin; apply Hcaught; now right).
      cbn [deleted printed app]. fold (reports c rest).
      now rewrite <- app_assoc.
Qed.

Lemma remove_loop_deletes_listed (c : cupboard) :
  forall (files : list str) (done done' : cleaning) (r : result unit),
    remove_loop c files done = (done', r) ->
    exists gone,
      deleted done' = deleted done ++ gone
      /\ incl gone files
      /\ Forall (fun file => unlink c file = None) gone.
Proof.
  induction files as [|file rest IH]; intros done done' r Hrun;
    cbn [remove_loop] in Hrun.
  - inversion Hrun; subst. exists []. rewrite app_nil_r.
    repeat split; [apply incl_nil_l | constructor].
  - destruct (unlink c file) as [e|] eqn:Hu.
    + destruct (caught_by e Exception).
      * apply IH in Hrun. destruct Hrun as [gone [Hd [Hi Hf]]].
        exists gone. repeat split; try assumption.
        now apply incl_tl.
      * inversion Hrun; subst. exists []. rewrite app_nil_r.
        repeat split; [apply incl_nil_l | constructor].
    + apply IH in Hrun. destruct Hrun as [gone [Hd [Hi Hf]]].
      cbn [deleted] in Hd. rewrite <- app_assoc in Hd.
      exists (file :: gone). repeat split; try assumption.
      * intros x [<-|Hx]; [now left | right; now apply Hi].
      * constructor; assumption.
Qed.

(** X6.  Clean-up is best effort: in an existing directory, as long as
    every failure of [unlink] is an [Exception], the keyword returns
    normally, every matching file that can be deleted is deleted, also
    after files that cannot, and one line is printed for each file that
    cannot, in the order of the listing. *)
Theorem Removing_Video_Frame_Files_best_effort :
  forall (c : cupboard) (file_format : str) (directory : option str),
    let directory_path :=
      match directory with
      | None => here c
      | Some d => rendered c d
      end in
    let files := glob c directory_path (lit "*." ++ file_format) in
    path_exists c directory_path = true ->
    (forall file e, In file files -> unlink c file = Some e ->
                    caught_by e Exception = true) ->
    Removing_Video_Frame_Files c file_format directory
    = (mkCleaning (filter (can_unlink c) files) (reports c files), Ok tt).
Proof.
  intros c file_format directory directory_path files Hdir Hcaught.
  unfold Removing_Video_Frame_Files. fold directory_path.
  rewrite Hdir. cbn [negb]. fold files.
  now rewrite remove_loop_best_effort by assumption.
Qed.

Lemma Removing_Video_Frame_Files_best_effort_witness :
  Removing_Video_Frame_Files three_frames (lit "jpg") (Some (lit "out"))
  = (mkCleaning
       (filter (can_unlink three_frames)
          (glob three_frames (rendered three_frames (lit "out"))
             (lit "*." ++ lit "jpg")))
       (reports three_frames
          (glob three_frames (rendered three_frames (lit "out"))
             (lit "*." ++ lit "jpg"))),
     Ok tt).
Proof.
  apply (Removing_Video_Frame_Files_best_effort three_frames (lit "jpg")
           (Some (lit "out"))).
  - reflexivity.
  - intros file e _ Hu. cbn [three_frames unlink] in Hu.
    destruct (str_eqb file (lit "out/frame_0001.jpg")); [|discriminate].
    injection Hu as <-. reflexivity.
Defined.

Example Removing_three_frames :
  Removing_Video_Frame_Files three_frames (lit "jpg") (Some (lit "out"))
  = (mkCleaning [lit "out/frame_0000.jpg"; lit "out/frame_0002.jpg"]
       [lit "Error deleting out/frame_0001.jpg: [Errno 13] Permission denied"],
     Ok tt).
Proof. reflexivity. Qed.

(** X7.  Whatever happens, the keyword deletes only files that the
    pattern [*.<file_format>] yields in the directory, each by a
    successful [unlink]; when the directory does not exist it deletes and
    prints nothing and raises [FileNotFoundError]. *)
Theorem Removing_Video_Frame_Files_only_matching :
  forall (c : cupboard) (file_format : str) (directory : option str)
         (done : cleaning) (r : result unit),
    let directory_path :=
      match directory with
      | None => here c
      | Some d => rendered c d
      end in
    Removing_Video_Frame_Files c file_format directory = (done, r) ->
    incl (deleted done) (glob c directory_path (lit "*." ++ file_format))
    /\ Forall (fun file => unlink c file = None) (deleted done)
    /\ (path_exists c directory_path = false ->
        deleted done = [] /\ printed done = []
        /\ exists e, r = Raise e /\ exn_class e = FileNotFoundError).
Proof.
  intros c file_format directory done r directory_path.
  unfold Removing_Video_Frame_Files. fold directory_path.
  destruct (path_exists c directory_path); cbn [negb].
  - intros Hrun. apply remove_loop_deletes_listed in Hrun.
    destruct Hrun as [gone [Hd [Hi Hf]]]. cbn [deleted app] in Hd.
    rewrite Hd. repeat split; try assumption; discriminate.
  - intros Hrun. inversion Hrun; subst. cbn [deleted printed].
    repeat split; [apply incl_nil_l | constructor |].
    eexists. split; reflexivity.
Qed.

Lemma Removing_Video_Frame_Files_only_matching_witness :
  incl (deleted (mkCleaning [] []))
    (glob three_frames (rendered three_frames (lit "elsewhere"))
       (lit "*." ++ lit "jpg"))
  /\ Forall (fun file => unlink three_frames file = None)
       (deleted (mkCleaning [] []))
  /\ (path_exists three_frames (rendered three_frames (lit "elsewhere"))
      = false ->
      deleted (mkCleaning [] []) = [] /\ printed (mkCleaning [] []) = []
      /\ exists e,
           (Raise (mkExn FileNotFoundError
                     (lit "The directory " ++ lit "elsewhere"
                      ++ lit " does not exist!")) : result unit) = Raise e
           /\ exn_class e = FileNotFoundError).
Proof.
  apply (@Removing_Video_Frame_Files_only_matching three_frames (lit "jpg")
           (Some (lit "elsewhere")) (mkCleaning [] [])
           (Raise (mkExn FileNotFoundError
                     (lit "The directory " ++ lit "elsewhere"
                      ++ lit " does not exist!")))).
  reflexivity.
Defined.

(** ** Should Be Equal As Frames *)

Lemma absdiff1_sym (x y : N) : absdiff1 x y = absdiff1 y x.
Proof.
  unfold absdiff1.
  destruct (x <=? y)%N eqn:E1; destruct (y <=? x)%N eqn:E2;
    bool_to_prop; lia.
Qed.

Lemma absdiff1_same (x : N) : absdiff1 x x = 0%N.
Proof. unfold absdiff1. rewrite N.leb_refl. lia. Qed.

Lemma absdiff_sym (a b : list (N * N * N)) : absdiff a b = absdiff b a.
Proof.
  unfold absdiff. revert b.
  induction a as [|[[b1 g1] r1] a IH]; intros [|[[b2 g2] r2] b];
    cbn [combine map]; try reflexivity.
  rewrite IH, (absdiff1_sym b1), (absdiff1_sym g1), (absdiff1_sym r1).
  reflexivity.
Qed.

Lemma absdiff_same (a : list (N * N * N)) :
  absdiff a a = map (fun _ => (0, 0, 0)%N) a.
Proof.
  unfold absdiff. induction a as [|[[b1 g1] r1] a IH]; cbn [combine map].
  - reflexivity.
  - now rewrite IH, !absdiff1_same.
Qed.

Lemma shape_eqb_sym (a b : nat * nat * nat) : shape_eqb a b = shape_eqb b a.
Proof.
  destruct a as [[r1 c1] k1], b as [[r2 c2] k2]. cbn [shape_eqb].
  now rewrite (Nat.eqb_sym r1), (Nat.eqb_sym c1), (Nat.eqb_sym k1).
Qed.

Lemma shape_eqb_refl (a : nat * nat * nat) : shape_eqb a a = true.
Proof.
  destruct a as [[r c] k]. cbn [shape_eqb]. now rewrite !Nat.eqb_refl.
Qed.

(** The sum of the thresholded differences is positive exactly when some
    grey level exceeds the threshold. *)
Lemma sum_threshold_positive (gray_diff : list N) :
  (0 <? numpy_sum (threshold gray_diff 50 255))%N
  = negb (forallb (fun v => (v <=? 50)%N) gray_diff).
Proof.
  induction gray_diff as [|v rest IH]; cbn [threshold map numpy_sum
                                             fold_right forallb].
  - reflexivity.
  - fold (threshold rest 50 255). fold (numpy_sum (threshold rest 50 255)).
    destruct (50 <? v)%N eqn:E1; destruct (v <=? 50)%N eqn:E2;
      bool_to_prop; try lia; cbn [andb negb].
    + apply N.ltb_lt. lia.
    + rewrite N.add_0_l. assumption.
Qed.

Lemma forallb_over_map (A B : Type) (f : B -> bool) (h : A -> B)
    (l : list A) :
  forallb f (map h l) = forallb (fun x => f (h x)) l.
Proof.
  induction l as [|x l IH]; cbn [map forallb]; [reflexivity | now rewrite IH].
Qed.

Section Comparison.

Variable bgr2gray : N * N * N -> N.
Variable g : gallery.

(** For two decodable images the keyword computes this. *)
Lemma Should_Be_Equal_As_Frames_images (source_img destination_img : str)
    (src dst : image) :
  imread g source_img = Some src ->
  imread g destination_img = Some dst ->
  Should_Be_Equal_As_Frames bgr2gray g source_img destination_img
  = Ok (shape_eqb (shape src) (shape dst)
        && forallb (fun p => (bgr2gray p <=? 50)%N)
             (absdiff (pixels src) (pixels dst))).
Proof.
  intros Hs Hd. unfold Should_Be_Equal_As_Frames.
  assert (Hfs : os_path_isfile g source_img = true).
  { unfold os_path_isfile, imread in *.
    destruct (g source_img) as [[?|]|]; congruence. }
  assert (Hfd : os_path_isfile g destination_img = true).
  { unfold os_path_isfile, imread in *.
    destruct (g destination_img) as [[?|]|]; congruence. }
  rewrite Hfs, Hfd. cbn [negb]. cbv zeta. rewrite Hs, Hd.
  destruct (shape_eqb (shape src) (shape dst)); cbn [andb]; [|reflexivity].
  rewrite sum_threshold_positive, forallb_over_map.
  now destruct (forallb _ _).
Qed.

End Comparison.

Lemma shape_eqb_true_iff (a b : nat * nat * nat) :
  shape_eqb a b = true <-> a = b.
Proof.
  destruct a as [[r1 c1] k1], b as [[r2 c2] k2]. cbn [shape_eqb].
  rewrite !andb_true_iff, !Nat.eqb_eq. split.
  - intros [[-> ->] ->]. reflexivity.
  - intros H. inversion H. repeat split.
Qed.

(** X8.  For two image files that can be decoded the keyword never
    raises, and it answers [True] exactly when the images have the same
    shape and no pixel of their absolute difference has a grey level
    above 50: smaller differences are not seen. *)
Theorem Should_Be_Equal_As_Frames_tolerance :
  forall (bgr2gray : N * N * N -> N) (g : gallery)
         (source_img destination_img : str) (src dst : image),
    imread g source_img = Some src ->
    imread g destination_img = Some dst ->
    exists verdict : bool,
      Should_Be_Equal_As_Frames bgr2gray g source_img destination_img
      = Ok verdict
      /\ (verdict = true <->
          shape src = shape dst
          /\ Forall (fun p => (bgr2gray p <= 50)%N)
               (absdiff (pixels src) (pixels dst))).
Proof.
  intros bgr2gray g source_img destination_img src dst Hs Hd.
  rewrite (@Should_Be_Equal_As_Frames_images bgr2gray g source_img
             destination_img src dst Hs Hd).
  eexists. split; [reflexivity|].
  rewrite andb_true_iff, shape_eqb_true_iff, forallb_forall, Forall_forall.
  split; intros [Hshape Hall]; (split; [assumption|]);
    intros p Hp; specialize (Hall p Hp); now apply N.leb_le.
Qed.

Lemma Should_Be_Equal_As_Frames_tolerance_witness :
  exists verdict : bool,
    Should_Be_Equal_As_Frames weighted_gray two_pictures (lit "a.png")
      (lit "b.png") = Ok verdict
    /\ (verdict = true <->
        shape (mkImage (1, 2, 3) [(10, 20, 30); (200, 100, 50)]%N)
        = shape (mkImage (1, 2, 3) [(10, 20, 30); (210, 120, 40)]%N)
        /\ Forall (fun p => (weighted_gray p <= 50)%N)
             (absdiff
                (pixels (mkImage (1, 2, 3) [(10, 20, 30); (200, 100, 50)]%N))
                (pixels (mkImage (1, 2, 3) [(10, 20, 30); (210, 120, 40)]%N)))).
Proof.
  apply (@Should_Be_Equal_As_Frames_tolerance weighted_gray two_pictures
           (lit "a.png") (lit "b.png")).
  - reflexivity.
  - reflexivity.
Defined.

Example pictures_within_tolerance :
  Should_Be_Equal_As_Frames weighted_gray two_pictures (lit "a.png")
    (lit "b.png") = Ok true.
Proof. reflexivity. Qed.

Example text_file_has_no_shape :
  Should_Be_Equal_As_Frames weighted_gray two_pictures (lit "a.png")
    (lit "notes.txt") = Raise no_shape.
Proof. reflexivity. Qed.

(** X9.  The comparison is symmetric: for two paths that are regular
    files, swapping source and destination gives the same verdict, or the
    same exception when one of them is no image. *)
Theorem Should_Be_Equal_As_Frames_symmetric :
  forall (bgr2gray : N * N * N -> N) (g : gallery)
         (source_img destination_img : str),
    os_path_isfile g source_img = true ->
    os_path_isfile g destination_img = true ->
    Should_Be_Equal_As_Frames bgr2gray g source_img destination_img
    = Should_Be_Equal_As_Frames bgr2gray g destination_img source_img.
Proof.
  intros bgr2gray g source_img destination_img Hs Hd.
  unfold Should_Be_Equal_As_Frames. rewrite Hs, Hd. cbn [negb]. cbv zeta.
  destruct (imread g source_img) as [src|];
    destruct (imread g destination_img) as [dst|]; try reflexivity.
  rewrite (shape_eqb_sym (shape src)), (absdiff_sym (pixels src)).
  reflexivity.
Qed.

Lemma Should_Be_Equal_As_Frames_symmetric_witness :
  Should_Be_Equal_As_Frames weighted_gray two_pictures (lit "a.png")
    (lit "b.png")
  = Should_Be_Equal_As_Frames weighted_gray two_pictures (lit "b.png")
      (lit "a.png").
Proof.
  apply (@Should_Be_Equal_As_Frames_symmetric weighted_gray two_pictures
           (lit "a.png") (lit "b.png")).
  - reflexivity.
  - reflexivity.
Defined.

(** X10.  An image file equals itself, provided black is not brighter
    than grey level 50. *)
Theorem Should_Be_Equal_As_Frames_reflexive :
  forall (bgr2gray : N * N * N -> N) (g : gallery) (path : str)
         (img : image),
    (bgr2gray (0, 0, 0) <= 50)%N ->
    imread g path = Some img ->
    Should_Be_Equal_As_Frames bgr2gray g path path = Ok true.
Proof.
  intros bgr2gray g path img Hblack Himg.
  rewrite (@Should_Be_Equal_As_Frames_images bgr2gray g path path img img
             Himg Himg).
  rewrite shape_eqb_refl, absdiff_same, forallb_over_map. cbn [andb].
  f_equal. apply forallb_forall. intros p _. now apply N.leb_le.
Qed.

Lemma Should_Be_Equal_As_Frames_reflexive_witness :
  Should_Be_Equal_As_Frames weighted_gray two_pictures (lit "a.png")
    (lit "a.png") = Ok true.
Proof.
  apply (@Should_Be_Equal_As_Frames_reflexive weighted_gray two_pictures
           (lit "a.png")
           (mkImage (1, 2, 3) [(10, 20, 30); (200, 100, 50)]%N)).
  - discriminate.
  - reflexivity.
Defined.

(** ** Get Frame Counts, the assertions and the send socket once more *)

(** X1.  [Get_Frame_count] returns the number of frames that the decoder
    yields for an existing path (0 for a file that is no video); for
    every other path it ends with the [NameError] about [file].  It never
    raises [FileNotFoundError]. *)
Theorem Get_Frame_count_counts_frames :
  forall (fs : filesystem) (video_file : str),
    Get_Frame_count fs video_file
    = match fs video_file with
      | Some frames => Ok (length frames)
      | None => Raise (mkExn NameError (lit "name 'file' is not defined"))
      end
    /\ forall e, Get_Frame_count fs video_file = Raise e ->
                 caught_by e FileNotFoundError = false.
Proof.
  intros fs video_file.
  assert (H : Get_Frame_count fs video_file
              = match fs video_file with
                | Some frames => Ok (length frames)
                | None =>
                    Raise (mkExn NameError (lit "name 'file' is not defined"))
                end).
  { unfold Get_Frame_count, os_path_exists, VideoCapture.
    destruct (fs video_file) as [frames|].
    - now rewrite read_frames_length.
    - now rewrite file_is_unbound. }
  split; [exact H|].
  intros e He. rewrite H in He.
  destruct (fs video_file); [discriminate|].
  inversion He; subst e. reflexivity.
Qed.

(** X11.  The verdict of both assertion keywords depends only on which
    messages the list holds, not on their order or multiplicity: two
    lists with the same members give the same result, exception message
    included. *)
Theorem Should_Messages_verdict_ignores_order :
  forall (sent_msg : str) (recv_msg recv_msg' : list str),
    (forall m, In m recv_msg <-> In m recv_msg') ->
    Should_Messages_Be_Equal sent_msg recv_msg
    = Should_Messages_Be_Equal sent_msg recv_msg'
    /\ Should_Messages_Not_Be_Equal sent_msg recv_msg
       = Should_Messages_Not_Be_Equal sent_msg recv_msg'.
Proof.
  intros sent_msg recv_msg recv_msg' Hsame.
  assert (Hc : contains sent_msg recv_msg = contains sent_msg recv_msg').
  { destruct (contains sent_msg recv_msg') eqn:E.
    - apply contains_true_iff. apply Hsame. now apply contains_true_iff.
    - apply contains_false_iff. intros Hin. apply Hsame in Hin.
      apply contains_false_iff in E. contradiction. }
  unfold Should_Messages_Be_Equal, Should_Messages_Not_Be_Equal.
  now rewrite Hc.
Qed.

Lemma Should_Messages_verdict_ignores_order_witness :
  Should_Messages_Be_Equal (lit "ping") [lit "ping"; lit "pong"; lit "ping"]
  = Should_Messages_Be_Equal (lit "ping") [lit "pong"; lit "ping"]
  /\ Should_Messages_Not_Be_Equal (lit "ping")
       [lit "ping"; lit "pong"; lit "ping"]
     = Should_Messages_Not_Be_Equal (lit "ping") [lit "pong"; lit "ping"].
Proof.
  apply (@Should_Messages_verdict_ignores_order (lit "ping")
           [lit "ping"; lit "pong"; lit "ping"] [lit "pong"; lit "ping"]).
  intros m. simpl. tauto.
Defined.

(** X12.  Every [ttl] that [struct.pack('b', ttl)] accepts is stored as
    one octet, which the kernel reads as unsigned: the hop limit of the
    new socket is [ttl mod 256].  A negative [ttl] therefore gives a hop
    limit of [ttl + 256], between 128 and 255. *)
Theorem Create_Send_Socket_hop_limit :
  forall (trace : list syscall) (ttl : Z),
    (-128 <= ttl <= 127)%Z ->
    exists send_sock,
      snd (Create_Send_Socket trace ttl) = Ok send_sock
      /\ multicast_ttl send_sock = (ttl mod 256)%Z
      /\ ((ttl < 0)%Z -> multicast_ttl send_sock = (ttl + 256)%Z).
Proof.
  intros trace ttl Httl.
  assert (Hmod : (0 <= ttl mod 256 < 256)%Z) by (apply Z.mod_pos_bound; lia).
  set (send_sock := mkSocket (3 + length (filter is_Sys_socket trace))
                      [(IPPROTO_IP, IP_MULTICAST_TTL,
                        [Utf8.octet (Z.to_N (ttl mod 256))])] None).
  assert (Hhop : multicast_ttl send_sock = (ttl mod 256)%Z).
  { unfold multicast_ttl, send_sock. cbn [sockopts find_opt].
    change ((IPPROTO_IP =? IPPROTO_IP)
            && (IP_MULTICAST_TTL =? IP_MULTICAST_TTL))%Z with true.
    cbv iota. rewrite octet_to_N by lia. lia. }
  exists send_sock. split; [|split; [exact Hhop|]].
  - unfold Create_Send_Socket, socket_socket.
    rewrite struct_pack_b_in_range by assumption. reflexivity.
  - intros Hneg. rewrite Hhop.
    rewrite <- (Z.mod_add ttl 1 256) by lia.
    rewrite Z.mod_small by lia. lia.
Qed.

Lemma Create_Send_Socket_hop_limit_witness :
  exists send_sock,
    snd (Create_Send_Socket [] (-56)) = Ok send_sock
    /\ multicast_ttl send_sock = ((-56) mod 256)%Z
    /\ ((-56 < 0)%Z -> multicast_ttl send_sock = (-56 + 256)%Z).
Proof.
  apply (@Create_Send_Socket_hop_limit [] (-56)%Z). lia.
Defined.
